(** * autoimpute: the time-series imputer (autoimpute/imputations/ts.py)

    A shallow embedding of [TimeSeriesImputer]: the pandas objects it
    works on, its two validators, [fit] and [transform], followed by the
    properties of the specification that were checked against it. *)

From Stdlib Require Import String ZArith QArith Qreduction Bool Lia List Permutation Sorted.
Import ListNotations.
Open Scope string_scope.

Set Implicit Arguments.

(** ** Values, series and frames *)

(** A cell of a column.  Numbers are exact rationals, time stamps are
    integers (ticks since the epoch).  A missing cell (NaN, None, NaT)
    is [None] at the type [cell]. *)
Inductive value : Type :=
| VNum (q : Q)
| VStr (s : string)
| VTime (t : Z).

Definition cell : Type := option value.

(** [Series.isnull()] on one cell. *)
Definition isnull (c : cell) : bool :=
  match c with None => true | Some _ => false end.

(** The dtypes [select_dtypes] tells apart. *)
Inductive dtype : Type := Numeric | Object | Datetime.

Definition is_datetime (d : dtype) : bool :=
  match d with Datetime => true | _ => false end.

Record Series : Type := mkSeries {
  name : string;
  dty : dtype;
  values : list cell
}.

(** The row index: either a [pd.DatetimeIndex] (time stamps, NaT is
    [None]) or any other index, of which only the labels matter. *)
Inductive Index : Type :=
| PlainIndex (labels : list Z)
| DatetimeIndex (stamps : list (option Z)).

Definition index_len (ix : Index) : nat :=
  match ix with
  | PlainIndex l => length l
  | DatetimeIndex l => length l
  end.

(** [isinstance(X.index, pd.DatetimeIndex)] *)
Definition is_DatetimeIndex (ix : Index) : bool :=
  match ix with DatetimeIndex _ => true | PlainIndex _ => false end.

Record DataFrame : Type := mkFrame {
  index : Index;
  columns : list Series
}.

(** [X.columns.tolist()] *)
Definition col_names (X : DataFrame) : list string := map name (columns X).

Definition nrows (X : DataFrame) : nat := index_len (index X).

(** [X[col_name]]: the column of that name, [None] for the KeyError. *)
Definition get_col (X : DataFrame) (c : string) : option Series :=
  find (fun s => String.eqb (name s) c) (columns X).

(** Replaces the cells of column [c], as the in-place operations on
    [X[c]] do. *)
Definition set_col_values (X : DataFrame) (c : string) (vs : list cell) : DataFrame :=
  mkFrame (index X)
          (map (fun s => if String.eqb (name s) c
                         then mkSeries (name s) (dty s) vs else s)
               (columns X)).

(** [X.select_dtypes(include=[np.datetime64])], as its columns. *)
Definition select_datetime (X : DataFrame) : list Series :=
  filter (fun s => is_datetime (dty s)) (columns X).

Definition stamp_of (c : cell) : option Z :=
  match c with Some (VTime t) => Some t | _ => None end.

(** [X.set_index(c, drop=True)]: a new frame whose index is made of the
    cells of column [c], that column being removed from the columns. *)
Definition set_index (X : DataFrame) (c : string) : option DataFrame :=
  match get_col X c with
  | None => None
  | Some s =>
      Some (mkFrame (DatetimeIndex (map stamp_of (values s)))
                    (filter (fun s' => negb (String.eqb (name s') c)) (columns X)))
  end.

(** *** Sorting by the index

    [sort_index(ascending=True)] orders the rows by their label, NaT
    last.  It is embedded as an insertion sort of the row positions,
    which keeps rows of equal label in their order. *)

Definition key_leb (a b : option Z) : bool :=
  match a, b with
  | Some x, Some y => Z.leb x y
  | Some _, None => true
  | None, Some _ => false
  | None, None => true
  end.

Fixpoint insert_pos (keys : list (option Z)) (i : nat) (ps : list nat) : list nat :=
  match ps with
  | [] => [i]
  | j :: ps' =>
      if key_leb (nth j keys None) (nth i keys None)
      then j :: insert_pos keys i ps'
      else i :: ps
  end.

(** The positions [0 .. n-1] ordered by key. *)
Definition argsort (keys : list (option Z)) : list nat :=
  fold_left (fun acc i => insert_pos keys i acc) (seq 0 (length keys)) [].

(** [take perm l] is [l] read at the positions of [perm]. *)
Definition take (A : Type) (d : A) (perm : list nat) (l : list A) : list A :=
  map (fun i => nth i l d) perm.

Definition index_keys (ix : Index) : list (option Z) :=
  match ix with
  | PlainIndex l => map Some l
  | DatetimeIndex l => l
  end.

Definition reorder_index (perm : list nat) (ix : Index) : Index :=
  match ix with
  | PlainIndex l => PlainIndex (take 0%Z perm l)
  | DatetimeIndex l => DatetimeIndex (take None perm l)
  end.

Definition sort_index (X : DataFrame) : DataFrame :=
  let perm := argsort (index_keys (index X)) in
  mkFrame (reorder_index perm (index X))
          (map (fun s => mkSeries (name s) (dty s) (take None perm (values s)))
               (columns X)).

(** ** Errors *)

(** The exceptions the module can end with: NotFitted comes from
    [check_is_fitted], the next three are raised by the module itself
    (two ValueError and a KeyError there), the others come from the
    collaborators and from Python, pandas and numpy. *)
Inductive error : Type :=
| NotFitted                (* check_is_fitted *)
| MissingTemporalAxis      (* ValueError: no DatetimeIndex, no datetime column *)
| ColumnMismatch           (* ValueError: fitted columns absent at transform *)
| InvalidIndexColumn       (* KeyError raised for a bad index_column *)
| InvalidStrategyName      (* _check_strategy, single name *)
| InvalidStrategyMapping   (* _check_strategy / _check_fit_strat, mapping *)
| MissingnessRejected      (* check_missingness *)
| IndexError               (* position 0 of an empty pandas Index *)
| KeyError (k : string)    (* X[k] or a dict lookup with an absent key *)
| AttributeError           (* an attribute that fit has not set *)
| TypeError
| ValueError
| NotImplementedError.

Inductive result (A : Type) : Type :=
| Ok (a : A)
| Err (e : error).

Arguments Ok {A} a.
Arguments Err {A} e.

Definition is_err (A : Type) (r : result A) : bool :=
  match r with Err _ => true | Ok _ => false end.

(** ** Dictionaries

    Python dictionaries with string keys, kept in insertion order. *)

Definition dict (V : Type) : Type := list (string * V).

Definition keys (V : Type) (d : dict V) : list string := map fst d.

Fixpoint dict_get (V : Type) (d : dict V) (k : string) : option V :=
  match d with
  | [] => None
  | (k', v) :: d' => if String.eqb k' k then Some v else dict_get d' k
  end.

(** [d[k] = v] *)
Fixpoint dict_set (V : Type) (d : dict V) (k : string) (v : V) : dict V :=
  match d with
  | [] => [(k, v)]
  | (k', v') :: d' =>
      if String.eqb k' k then (k', v) :: d' else (k', v') :: dict_set d' k v
  end.

(** [d.pop(k, None)], as the dictionary it leaves. *)
Definition dict_pop (V : Type) (d : dict V) (k : string) : dict V :=
  filter (fun kv => negb (String.eqb (fst kv) k)) d.

Definition mem (k : string) (l : list string) : bool :=
  existsb (String.eqb k) l.

(** [set(a).difference(b)], as the list of the elements of [a] that are not in [b]. *)
Definition difference (a b : list string) : list string :=
  filter (fun k => negb (mem k b)) a.

(** ** What fit learns *)

(** The [param] of a column: nothing for linear, time and none, a scalar
    (NaN when there is nothing to average) for mean and median, the modal
    values for mode, the observed values for random, mean and standard
    deviation for norm. *)
Inductive Param : Type :=
| PNothing
| PScalar (v : cell)
| PModes (ms : list value)
| PArray (a : list value)
| PNorm (mu sd : option Q).

Record ColumnStatistics : Type := mkStat {
  param : Param;
  strat : string
}.

(** The non-missing values of a column, in row order. *)
Fixpoint observed (cs : list cell) : list value :=
  match cs with
  | [] => []
  | Some v :: cs' => v :: observed cs'
  | None :: cs' => observed cs'
  end.

Fixpoint numbers (vs : list value) : list Q :=
  match vs with
  | [] => []
  | VNum q :: vs' => q :: numbers vs'
  | _ :: vs' => numbers vs'
  end.

Definition Qsum (l : list Q) : Q := fold_right Qplus 0%Q l.

Definition Qmean (l : list Q) : option Q :=
  match l with
  | [] => None
  | _ => Some (Qred (Qsum l / inject_Z (Z.of_nat (length l))))
  end.

Fixpoint Qinsert (x : Q) (l : list Q) : list Q :=
  match l with
  | [] => [x]
  | y :: l' => if Qle_bool x y then x :: l else y :: Qinsert x l'
  end.

Definition Qsort (l : list Q) : list Q := fold_right Qinsert [] l.

Definition Qmedian (l : list Q) : option Q :=
  let s := Qsort l in
  let n := length s in
  match n with
  | O => None
  | _ =>
      if Nat.even n
      then Some (Qred ((nth (n / 2 - 1) s 0 + nth (n / 2) s 0) / 2))
      else Some (Qred (nth (n / 2) s 0))
  end%Q.

(** The square root of a non-negative rational to nine decimal places;
    it stands for the floating-point square root. *)
Definition Qsqrt (q : Q) : Q :=
  let scale := (10 ^ 9)%Z in
  let d := Z.pos (Qden q) in
  Qred (Qmake (Z.sqrt (Qnum q * d * scale * scale)) (Pos.mul (Qden q) (Z.to_pos scale))).

(** Sample standard deviation (one degree of freedom removed), NaN for
    fewer than two numbers. *)
Definition Qstd (l : list Q) : option Q :=
  match Qmean l with
  | None => None
  | Some m =>
      match length l with
      | O | S O => None
      | S n =>
          Some (Qsqrt (Qsum (map (fun x => (x - m) * (x - m)) l)
                       / inject_Z (Z.of_nat n)))
      end
  end%Q.

Definition value_eqb (a b : value) : bool :=
  match a, b with
  | VNum x, VNum y => Qeq_bool x y
  | VStr x, VStr y => String.eqb x y
  | VTime x, VTime y => Z.eqb x y
  | _, _ => false
  end.

Definition count_of (v : value) (vs : list value) : nat :=
  length (filter (value_eqb v) vs).

(** The distinct values of a list, each at its first place. *)
Fixpoint distinct (vs : list value) : list value :=
  match vs with
  | [] => []
  | v :: vs' => v :: filter (fun w => negb (value_eqb v w)) (distinct vs')
  end.

(** The most frequent values, in the order in which they first occur. *)
Definition modes (vs : list value) : list value :=
  let top := fold_right (fun v m => Nat.max (count_of v vs) m) O vs in
  distinct (filter (fun v => Nat.eqb (count_of v vs) top) vs).

(** Modelled from the spec: the learning functions of
    autoimpute/imputations/methods.py, which are not among the sources.
    Each is a pure function from a column to its [param] and the name of
    the strategy it settled on: a scalar for mean and median, the modal
    values for mode, the array of observed values for random, a (mean,
    std) pair for norm, no value for linear, time and none. *)
Definition _mean (s : Series) : Param * string :=
  (PScalar (option_map VNum (Qmean (numbers (observed (values s))))), "mean").

Definition _median (s : Series) : Param * string :=
  (PScalar (option_map VNum (Qmedian (numbers (observed (values s))))), "median").

Definition _mode (s : Series) : Param * string :=
  (PModes (modes (observed (values s))), "mode").

Definition _random (s : Series) : Param * string :=
  (PArray (observed (values s)), "random").

Definition _norm (s : Series) : Param * string :=
  let xs := numbers (observed (values s)) in
  (PNorm (Qmean xs) (Qstd xs), "norm").

Definition _linear (s : Series) : Param * string := (PNothing, "linear").

Definition _time (s : Series) : Param * string := (PNothing, "time").

Definition _none (s : Series) : Param * string := (PNothing, "none").

(** Modelled from the spec: the default of a time series, resolved inside
    the learning function from the type of the column: linear
    interpolation for a numeric column, the mode for any other. *)
Definition _ts_default (s : Series) : Param * string :=
  match dty s with
  | Numeric => _linear s
  | _ => _mode s
  end.

(** The class attribute [strategies]. *)
Definition strategies : dict (Series -> Param * string) :=
  [ ("default", _ts_default);
    ("mean", _mean);
    ("median", _median);
    ("mode", _mode);
    ("random", _random);
    ("norm", _norm);
    ("linear", _linear);
    ("time", _time);
    ("none", _none) ].

(** ** Strategy requests and their resolution *)

(** The [strategy] argument: one name for all columns, or a mapping from
    column to name. *)
Inductive StrategyRequest : Type :=
| OneName (s : string)
| PerColumn (m : dict string).

(** Modelled from the spec: [_check_strategy] of autoimpute/utils/checks.py,
    which is not among the sources.  Every name of the request has to be
    a registered strategy. *)
Definition _check_strategy (strat_names : list string) (s : StrategyRequest)
  : result StrategyRequest :=
  match s with
  | OneName n => if mem n strat_names then Ok s else Err InvalidStrategyName
  | PerColumn m =>
      if forallb (fun kv => mem (snd kv) strat_names) m
      then Ok s else Err InvalidStrategyMapping
  end.

(** Modelled from the spec: [_nan_col_dropper] of autoimpute/utils/helpers.py,
    which is not among the sources.  A column is dropped iff every value
    of it is missing; the reduced frame and the dropped names are
    returned, nothing else changes. *)
Definition all_missing (s : Series) : bool := forallb isnull (values s).

Definition _nan_col_dropper (X : DataFrame) : DataFrame * list string :=
  (mkFrame (index X) (filter (fun s => negb (all_missing s)) (columns X)),
   map name (filter all_missing (columns X))).

(** Modelled from the spec: [_check_fit_strat] of autoimpute/utils/checks.py,
    which is not among the sources.  A single name is given to every
    remaining column.  Of a mapping, every key has to be an original
    column and every value a registered strategy; keys of dropped columns
    are left out and the remaining columns that the mapping does not
    name get "default". *)
Definition _check_fit_strat (strategy : StrategyRequest) (nc ocols ncols : list string)
  : result (dict string) :=
  match strategy with
  | OneName n =>
      if mem n (keys strategies)
      then Ok (map (fun c => (c, n)) ncols)
      else Err InvalidStrategyName
  | PerColumn m =>
      if forallb (fun kv => mem (fst kv) ocols && mem (snd kv) (keys strategies)) m
      then Ok (map (fun c => (c, match dict_get m c with
                                 | Some n => n
                                 | None => "default"
                                 end)) ncols)
      else Err InvalidStrategyMapping
  end.

(** Modelled from the spec: the precondition of the decorator
    [check_missingness] of autoimpute/utils/checks.py, which is not among
    the sources.  It runs before the body of [fit] and of [transform] and
    rejects an empty dataset. *)
Definition check_missingness (X : DataFrame) : bool :=
  negb (Nat.eqb (nrows X) 0) && negb (Nat.eqb (length (columns X)) 0).

(** ** The imputer and fit *)

(** The attributes of a [TimeSeriesImputer].  [_nc], [_strats] and
    [statistics_] do not exist before [fit] sets them: [None]. *)
Record TimeSeriesImputer : Type := mkImputer {
  strategy : StrategyRequest;
  fill_value : option string;
  index_column : option string;
  verbose : bool;
  _nc : option (list string);
  _strats : option (dict string);
  statistics_ : option (dict ColumnStatistics)
}.

Definition with_nc (self : TimeSeriesImputer) (nc : list string) : TimeSeriesImputer :=
  mkImputer (strategy self) (fill_value self) (index_column self) (verbose self)
            (Some nc) (_strats self) (statistics_ self).

Definition with_strats (self : TimeSeriesImputer) (st : dict string) : TimeSeriesImputer :=
  mkImputer (strategy self) (fill_value self) (index_column self) (verbose self)
            (_nc self) (Some st) (statistics_ self).

Definition with_statistics (self : TimeSeriesImputer) (st : dict ColumnStatistics)
  : TimeSeriesImputer :=
  mkImputer (strategy self) (fill_value self) (index_column self) (verbose self)
            (_nc self) (_strats self) (Some st).

(** [__init__]; the setter of [strategy] validates the request. *)
Definition init (strategy : StrategyRequest) (fill_value index_column : option string)
           (verbose : bool) : result TimeSeriesImputer :=
  match _check_strategy (keys strategies) strategy with
  | Err e => Err e
  | Ok s => Ok (mkImputer s fill_value index_column verbose None None None)
  end.

(** [_fit_strategy_validator].  The imputer is returned as the call
    leaves it, also when it raises. *)
Definition _fit_strategy_validator (self : TimeSeriesImputer) (X : DataFrame)
  : TimeSeriesImputer * result unit :=
  let ts := select_datetime X in
  let ts_c := length ts in
  let ts_ix := index X in
  if negb (is_DatetimeIndex ts_ix) && Nat.eqb ts_c 0
  then (self, Err MissingTemporalAxis)
  else
    let ocols := col_names X in
    let '(X', nc) := _nan_col_dropper X in
    let self1 := with_nc self nc in
    let ncols := col_names X' in
    match _check_fit_strat (strategy self1) nc ocols ncols with
    | Err e => (self1, Err e)
    | Ok st => (with_strats self1 st, Ok tt)
    end.

(** The loop of [fit] over [self._strats.items()]: [stats] is
    [self.statistics_], filled entry by entry. *)
Fixpoint fit_columns (X : DataFrame) (items : dict string) (stats : dict ColumnStatistics)
  : dict ColumnStatistics * result unit :=
  match items with
  | [] => (stats, Ok tt)
  | (col_name, func_name) :: items' =>
      match dict_get strategies func_name with
      | None => (stats, Err (KeyError func_name))
      | Some f =>
          match get_col X col_name with
          | None => (stats, Err (KeyError col_name))
          | Some s =>
              let '(fit_param, fit_name) := f s in
              fit_columns X items' (dict_set stats col_name (mkStat fit_param fit_name))
          end
      end
  end.

(** The body of [fit].  What it prints under [verbose] is left out. *)
Definition fit_body (self : TimeSeriesImputer) (X : DataFrame)
  : TimeSeriesImputer * result unit :=
  match _fit_strategy_validator self X with
  | (self1, Err e) => (self1, Err e)
  | (self1, Ok _) =>
      let self2 := with_statistics self1 [] in
      match _strats self2 with
      | None => (self2, Err AttributeError)
      | Some items =>
          let '(stats, r) := fit_columns X items [] in
          (with_statistics self2 stats, r)
      end
  end.

(** [fit], under its decorator.  The first component is the imputer after
    the call. *)
Definition fit (self : TimeSeriesImputer) (X : DataFrame)
  : TimeSeriesImputer * result unit :=
  if check_missingness X then fit_body self X else (self, Err MissingnessRejected).

(** ** Filling a column *)

(** [series.fillna(v)] *)
Definition fillna (v : value) (cs : list cell) : list cell :=
  map (fun c => match c with None => Some v | Some _ => c end) cs.

(** The cells of [fills] written, in order, at the missing positions of
    [cs]; positions beyond the fills are left as they are. *)
Fixpoint fill_with (fills : list cell) (cs : list cell) : list cell :=
  match cs with
  | [] => []
  | Some v :: cs' => Some v :: fill_with fills cs'
  | None :: cs' =>
      match fills with
      | [] => cs
      | f :: fills' => f :: fill_with fills' cs'
      end
  end.

Definition n_missing (cs : list cell) : nat := length (filter isnull cs).

(** The positions of the missing cells, counted from [i]. *)
Fixpoint missing_positions (i : nat) (cs : list cell) : list nat :=
  match cs with
  | [] => []
  | c :: cs' =>
      if isnull c then i :: missing_positions (S i) cs'
      else missing_positions (S i) cs'
  end.

Definition key_eqb (a b : option Z) : bool :=
  match a, b with
  | Some x, Some y => Z.eqb x y
  | None, None => true
  | _, _ => false
  end.

(** The positions of [ks] that hold label [lab], counted from [i]. *)
Fixpoint positions_of (lab : option Z) (i : nat) (ks : list (option Z)) : list nat :=
  match ks with
  | [] => []
  | k :: ks' =>
      if key_eqb k lab then i :: positions_of lab (S i) ks'
      else positions_of lab (S i) ks'
  end.

Fixpoint upd (A : Type) (p : nat) (v : A) (l : list A) {struct l} : list A :=
  match l, p with
  | [], _ => []
  | _ :: l', O => v :: l'
  | x :: l', S p' => x :: upd p' v l'
  end.

(** [X[col][X[col].isnull()].index]: the labels of the rows in which the
    column is missing. *)
Definition null_labels (ks : list (option Z)) (cs : list cell) : list (option Z) :=
  map (fun p => nth p ks None) (missing_positions 0 cs).

(** [X.loc[imp_ind, col] = fills], on the cells of the column.  The
    labels are looked up in the index, each one reaching every row that
    carries it; [fills] is written over the rows reached, one fill a
    row, a single fill being broadcast.  Any other mismatch of the two
    lengths is the ValueError of the assignment. *)
Definition loc_assign (ks imp_ind : list (option Z)) (fills cs : list cell)
  : result (list cell) :=
  let indexer := flat_map (fun lab => positions_of lab 0 ks) imp_ind in
  if Nat.eqb (length indexer) (length fills)
  then Ok (fold_left (fun acc pv => upd (fst pv) (snd pv) acc) (combine indexer fills) cs)
  else
    match fills with
    | [f] => Ok (fold_left (fun acc p => upd p f acc) indexer cs)
    | _ => Err ValueError
    end.

(** Modelled from the spec: [_mode_output] of autoimpute/utils/helpers.py,
    which is not among the sources.  The missing cells are filled with
    the stored modal values; among several modes the choice is fixed (the
    first one) unless [fill_value] is set, which goes through them in
    turn. *)
Definition _mode_output (cs : list cell) (fill_val : Param) (fill_value : option string)
  : result (list cell) :=
  match fill_val with
  | PModes [] => Err IndexError
  | PModes (m :: ms) =>
      match fill_value with
      | None => Ok (fillna m cs)
      | Some _ =>
          Ok (fill_with (map (fun k => Some (nth (k mod length (m :: ms)) (m :: ms) m))
                             (seq 0 (n_missing cs)))
                        cs)
      end
  | _ => Err TypeError
  end.

(** *** Interpolation *)

(** The next observed cell and its abscissa, when it is a number. *)
Fixpoint next_obs (xs : list Q) (cs : list cell) : option (Q * Q) :=
  match xs, cs with
  | x :: _, Some (VNum b) :: _ => Some (x, b)
  | _ :: xs', None :: cs' => next_obs xs' cs'
  | _, _ => None
  end.

(** One pass over the column; [prev] is the last number seen and its
    abscissa.  A gap between two numbers is filled on the straight line
    through them, a gap after the last number with that number, a gap
    before the first number is left. *)
Fixpoint interp_from (prev : option (Q * Q)) (xs : list Q) (cs : list cell) : list cell :=
  match cs, xs with
  | [], _ => []
  | _, [] => cs
  | Some (VNum a) :: cs', x :: xs' => Some (VNum a) :: interp_from (Some (x, a)) xs' cs'
  | Some v :: cs', _ :: xs' => Some v :: interp_from None xs' cs'
  | None :: cs', x :: xs' =>
      (match prev with
       | None => None
       | Some (x0, a) =>
           match next_obs xs' cs' with
           | Some (x1, b) => Some (VNum (Qred (a + (b - a) * (x - x0) / (x1 - x0))))
           | None => Some (VNum a)
           end
       end) :: interp_from prev xs' cs'
  end.

Fixpoint all_stamps (ks : list (option Z)) : option (list Q) :=
  match ks with
  | [] => Some []
  | None :: _ => None
  | Some t :: ks' => option_map (cons (inject_Z t)) (all_stamps ks')
  end.

(** Modelled from the spec: [_interp] of autoimpute/imputations/methods.py,
    which is not among the sources.  The missing cells are interpolated
    from the numbers of the column, along the row positions for "linear"
    and along the time stamps of the index for "time"; interior gaps are
    fully determined, the trailing gap carries the last number on and
    the leading gap is left, which is the boundary rule of the
    interpolation of pandas.  Interpolating along an index that holds NaT
    is not implemented there. *)
Definition _interp (ks : list (option Z)) (cs : list cell) (strat : string)
  : result (list cell) :=
  if String.eqb strat "time"
  then match all_stamps ks with
       | Some xs => Ok (interp_from None xs cs)
       | None => Err NotImplementedError
       end
  else Ok (interp_from None (map (fun i => inject_Z (Z.of_nat i)) (seq 0 (length cs))) cs).

(** *** Random draws *)

(** The state of numpy's generator: the stream of its uniform draws (a
    draw picks the position [uniform k mod n] of an array of [n]), the
    stream of its standard normal draws, and how many were taken. *)
Record RandomState : Type := mkRandom {
  uniform : nat -> nat;
  gauss : nat -> Q;
  taken : nat
}.

Definition advance (g : RandomState) (n : nat) : RandomState :=
  mkRandom (uniform g) (gauss g) (taken g + n).

(** [np.random.choice(a, n)]: [n] draws with replacement. *)
Definition choice (a : list value) (n : nat) (g : RandomState)
  : RandomState * result (list cell) :=
  match a with
  | [] => if Nat.eqb n 0 then (g, Ok []) else (g, Err ValueError)
  | v :: _ =>
      (advance g n,
       Ok (map (fun k => Some (nth (uniform g (taken g + k) mod length a) a v)) (seq 0 n)))
  end.

(** [norm.rvs(loc=mu, scale=std, size=n)]; NaN parameters give NaN. *)
Definition norm_rvs (mu sd : option Q) (n : nat) (g : RandomState)
  : RandomState * list cell :=
  (advance g n,
   map (fun k => match mu, sd with
                 | Some m, Some s => Some (VNum (Qred (m + s * gauss g (taken g + k))))
                 | _, _ => None
                 end) (seq 0 n)).

(** ** transform

    [transform] works on objects that outlive it: the imputer, the frame
    the caller passed, and the generator.  The local variable [X] names
    the caller's frame until [set_index] makes a new one; what is done in
    place to [X] is done to the object it names. *)

Record Heap : Type := mkHeap {
  imputer : TimeSeriesImputer;      (* self *)
  passed : DataFrame;               (* the caller's frame *)
  made : option DataFrame;          (* the frame made by set_index, if any *)
  random : RandomState
}.

(** A computation that may raise; what it did before raising stays. *)
Definition M (A : Type) : Type := Heap -> Heap * result A.

Definition ret (A : Type) (a : A) : M A := fun h => (h, Ok a).

Definition raise (A : Type) (e : error) : M A := fun h => (h, Err e).

Arguments raise {A} e.

Definition bind (A B : Type) (m : M A) (k : A -> M B) : M B :=
  fun h => match m h with
           | (h', Ok a) => k a h'
           | (h', Err e) => (h', Err e)
           end.

Notation "x <- m ;; k" := (bind m (fun x => k))
  (at level 61, m at next level, right associativity).
Notation "m ;;; k" := (bind m (fun _ => k))
  (at level 61, right associativity).

Definition get_self : M TimeSeriesImputer := fun h => (h, Ok (imputer h)).

Definition put_self (s : TimeSeriesImputer) : M unit :=
  fun h => (mkHeap s (passed h) (made h) (random h), Ok tt).

(** The object [X] names. *)
Definition local (h : Heap) : DataFrame :=
  match made h with Some X => X | None => passed h end.

Definition get_X : M DataFrame := fun h => (h, Ok (local h)).

(** An operation in place on [X]. *)
Definition put_X (X : DataFrame) : M unit :=
  fun h => match made h with
           | Some _ => (mkHeap (imputer h) (passed h) (Some X) (random h), Ok tt)
           | None => (mkHeap (imputer h) X None (random h), Ok tt)
           end.

(** [X = ...]: the variable is bound to a new object. *)
Definition bind_X (X : DataFrame) : M unit :=
  fun h => (mkHeap (imputer h) (passed h) (Some X) (random h), Ok tt).

Definition with_random (A : Type) (f : RandomState -> RandomState * A) : M A :=
  fun h => let '(g, a) := f (random h) in
           (mkHeap (imputer h) (passed h) (made h) g, Ok a).

Definition lift (A : Type) (r : result A) : M A := fun h => (h, r).

Definition when (b : bool) (m : M unit) : M unit := if b then m else ret tt.

Fixpoint for_each (A : Type) (l : list A) (body : A -> M unit) : M unit :=
  match l with
  | [] => ret tt
  | a :: l' => body a ;;; for_each l' body
  end.

(** [self._strats.pop(c, None)] *)
Definition pop_strat (c : string) : M unit :=
  self <- get_self ;;
  match _strats self with
  | None => raise AttributeError
  | Some st => put_self (with_strats self (dict_pop st c))
  end.

(** [X = X.set_index(c, drop=True)] *)
Definition reindex (c : string) : M unit :=
  X <- get_X ;;
  match set_index X c with
  | None => raise (KeyError c)
  | Some X' => bind_X X'
  end.

(** [_transform_strategy_validator]; the frame it returns is [X]. *)
Definition _transform_strategy_validator : M unit :=
  X <- get_X ;;
  self <- get_self ;;
  (* check columns *)
  let X_cols := col_names X in
  match _strats self with
  | None => raise AttributeError
  | Some strats =>
      let fit_cols := keys strats in
      let diff_fit := difference fit_cols X_cols in
      match diff_fit with
      | _ :: _ => raise ColumnMismatch
      | [] =>
          (* identify if time series columns *)
          let ts := select_datetime X in
          let ts_c := length ts in
          let ts_ix := index X in
          (* attempt to reindex the right time column *)
          when (negb (is_DatetimeIndex ts_ix))
               (match ts with
                | [] => raise IndexError
                | first :: _ =>
                    let fts := name first in
                    if Nat.eqb ts_c 1
                    then pop_strat fts ;;; reindex fts
                    else
                      match index_column self with
                      | None => pop_strat fts ;;; reindex fts
                      | Some ic =>
                          if mem ic (map name ts)
                          then pop_strat ic ;;; reindex ic
                          else raise InvalidIndexColumn
                      end
                end) ;;;
          (* sort and return X *)
          X1 <- get_X ;;
          put_X (sort_index X1)
      end
  end.

(** An in-place operation on the cells of column [c] of [X]. *)
Definition on_column (c : string) (f : list (option Z) -> list cell -> M (list cell))
  : M unit :=
  X <- get_X ;;
  match get_col X c with
  | None => raise (KeyError c)
  | Some s =>
      vs <- f (index_keys (index X)) (values s) ;;
      X' <- get_X ;;
      put_X (set_col_values X' c vs)
  end.

Definition is_in (s : string) (l : list string) : bool := mem s l.

(** The body of the loop of [transform] for one entry of
    [self.statistics_]. *)
Definition fill_column (kv : string * ColumnStatistics) : M unit :=
  let '(col_name, fit_data) := kv in
  let strat := strat fit_data in
  let fill_val := param fit_data in
  self <- get_self ;;
  X <- get_X ;;
  match get_col X col_name with
  | None => raise (KeyError col_name)
  | Some col =>
      let imp_ind := null_labels (index_keys (index X)) (values col) in
      (* mean and median imputation *)
      when (is_in strat ["mean"; "median"])
           (on_column col_name (fun _ cs =>
              match fill_val with
              | PScalar (Some v) => ret (fillna v cs)
              | PScalar None => ret cs
              | PNothing => raise ValueError
              | _ => raise TypeError
              end)) ;;;
      (* mode imputation *)
      when (String.eqb strat "mode")
           (on_column col_name (fun _ cs =>
              lift (_mode_output cs fill_val (fill_value self)))) ;;;
      (* imputation with random value from observed data *)
      when (String.eqb strat "random")
           (fills <- match fill_val with
                     | PArray a | PModes a =>
                         r <- with_random (choice a (length imp_ind)) ;; lift r
                     | _ => raise ValueError
                     end ;;
            on_column col_name (fun ks cs => lift (loc_assign ks imp_ind fills cs))) ;;;
      (* linear and time interpolation imputation *)
      when (is_in strat ["linear"; "time"])
           (on_column col_name (fun ks cs => lift (_interp ks cs strat))) ;;;
      (* normal distribution imputation *)
      when (String.eqb strat "norm")
           (match fill_val with
            | PNorm mu std =>
                fills <- with_random (norm_rvs mu std (length imp_ind)) ;;
                on_column col_name (fun ks cs => lift (loc_assign ks imp_ind fills cs))
            | _ => raise TypeError
            end) ;;;
      (* no imputation if strategy is none *)
      when (String.eqb strat "none") (ret tt)
  end.

(** The body of [transform].  What it prints under [verbose] is left out. *)
Definition transform_body : M DataFrame :=
  (* initial checks before transformation *)
  self <- get_self ;;
  match statistics_ self with
  | None => raise NotFitted
  | Some _ =>
      (* create dataframe index then proceed *)
      _transform_strategy_validator ;;;
      (* transformation logic *)
      self' <- get_self ;;
      match statistics_ self' with
      | None => raise AttributeError
      | Some stats => for_each stats fill_column ;;; get_X
      end
  end.

(** [transform], under its decorator.  The heap is what the call leaves
    behind: the imputer, the caller's frame, the generator. *)
Definition transform (self : TimeSeriesImputer) (X : DataFrame) (g : RandomState)
  : Heap * result DataFrame :=
  let h := mkHeap self X None g in
  if check_missingness X then transform_body h else (h, Err MissingnessRejected).

(** The imputer and the outcome of [fit] followed by [transform] on the
    same frame. *)
Definition fit_transform (self : TimeSeriesImputer) (X : DataFrame) (g : RandomState)
  : result DataFrame :=
  match fit self X with
  | (_, Err e) => Err e
  | (self', Ok _) => snd (transform self' X g)
  end.

(** ** The scenario of the specification *)

Module Scenario.

Definition num (z : Z) : cell := Some (VNum (inject_Z z)).

Definition day (z : Z) : cell := Some (VTime z).

(** A generator whose k-th uniform draw is k and whose normal draws are 0. *)
Definition g0 : RandomState := mkRandom (fun k => k) (fun _ => 0%Q) 0.

(** Columns [date, value], five ascending days, over a default index. *)
Definition dated : DataFrame :=
  mkFrame (PlainIndex [0; 1; 2; 3; 4]%Z)
          [ mkSeries "date" Datetime [day 1; day 2; day 3; day 4; day 5];
            mkSeries "value" Numeric [num 1; None; num 3; None; num 5] ].

(** The same values over a DatetimeIndex of the five days. *)
Definition indexed : DataFrame :=
  mkFrame (DatetimeIndex [Some 1; Some 2; Some 3; Some 4; Some 5]%Z)
          [ mkSeries "value" Numeric [num 1; None; num 3; None; num 5] ].

(** [TimeSeriesImputer(strategy=s)] *)
Definition imputer_of (s : string) : TimeSeriesImputer :=
  mkImputer (OneName s) None None false None None None.

End Scenario.

(** ** Properties *)

Unset Implicit Arguments.
Local Open Scope nat_scope.
Local Open Scope list_scope.

(** *** Basic facts on the monad and on lists of names *)

(** One step of the heap passing. *)
Ltac run :=
  cbv beta iota zeta delta
      [bind get_self get_X put_X bind_X put_self ret raise lift local
       imputer passed made random fst snd].

Lemma mem_In (k : string) (l : list string) : mem k l = true <-> In k l.
Proof.
  unfold mem. rewrite existsb_exists. split.
  - intros [x [Hx He]]. apply String.eqb_eq in He. subst. exact Hx.
  - intros H. exists k. split; [exact H | apply String.eqb_refl].
Qed.

Lemma difference_nil (a b : list string) :
  difference a b = [] <-> (forall k, In k a -> In k b).
Proof.
  unfold difference. induction a as [|x a IH]; simpl.
  - split; [intros _ k [] | reflexivity].
  - destruct (mem x b) eqn:E; simpl.
    + rewrite IH. split.
      * intros H k [<-|Hk]; [apply mem_In; exact E | apply H; exact Hk].
      * intros H k Hk. apply H. right. exact Hk.
    + split; [discriminate |].
      intros H. assert (In x b) as Hx by (apply H; left; reflexivity).
      apply mem_In in Hx. congruence.
Qed.

Lemma difference_missing (a b : list string) (c : string) :
  In c a -> ~ In c b -> exists d ds, difference a b = d :: ds.
Proof.
  intros Ha Hb. destruct (difference a b) as [|d ds] eqn:E.
  - exfalso. apply Hb. exact (proj1 (difference_nil a b) E c Ha).
  - exists d, ds. reflexivity.
Qed.

(** *** C8: transform before fit *)

(** The imputers on which [fit] has never succeeded: a new imputer, and
    what failed calls of [fit] and any calls of [transform] make of it. *)
Inductive unfitted : TimeSeriesImputer -> Prop :=
| unfitted_init s fv ic vb self :
    init s fv ic vb = Ok self -> unfitted self
| unfitted_failed_fit self X self' e :
    unfitted self -> fit self X = (self', Err e) -> unfitted self'
| unfitted_transform self X g h r :
    unfitted self -> transform self X g = (h, r) -> unfitted (imputer h).

Lemma dict_get_mem (V : Type) (d : dict V) (k : string) :
  mem k (keys d) = true -> exists v, dict_get d k = Some v.
Proof.
  induction d as [|[k' v'] d IH]; simpl; [discriminate|].
  rewrite String.eqb_sym.
  destruct (String.eqb k' k); simpl; eauto.
Qed.

Lemma dict_get_In (V : Type) (d : dict V) (k : string) (v : V) :
  dict_get d k = Some v -> In (k, v) d.
Proof.
  induction d as [|[k' v'] d IH]; simpl; [discriminate|].
  destruct (String.eqb k' k) eqn:E.
  - apply String.eqb_eq in E. intros [= ->]. left. congruence.
  - intros H. right. exact (IH H).
Qed.

Lemma get_col_In (X : DataFrame) (c : string) :
  In c (col_names X) -> exists s, get_col X c = Some s.
Proof.
  unfold col_names, get_col. induction (columns X) as [|s l IH]; simpl; [intros []|].
  intros [H|H].
  - rewrite H, String.eqb_refl. eauto.
  - destruct (String.eqb (name s) c); eauto.
Qed.

(** The loop of [fit] goes through when every item names a column of the
    frame and a registered strategy. *)
Lemma fit_columns_ok (X : DataFrame) (items : dict string) :
  (forall c n, In (c, n) items ->
               In c (col_names X) /\ mem n (keys strategies) = true) ->
  forall stats, snd (fit_columns X items stats) = Ok tt.
Proof.
  induction items as [|[c n] items IH]; intros H stats; cbn [fit_columns];
    [reflexivity|].
  destruct (H c n (or_introl eq_refl)) as [Hc Hn].
  destruct (dict_get_mem _ strategies n Hn) as [f ->].
  destruct (get_col_In X c Hc) as [s ->].
  destruct (f s) as [p nm]. apply IH.
  intros c' n' Hin. apply H. right. exact Hin.
Qed.

Lemma dropper_names_incl (X : DataFrame) (c : string) :
  In c (col_names (fst (_nan_col_dropper X))) -> In c (col_names X).
Proof.
  unfold col_names, _nan_col_dropper. simpl. rewrite !in_map_iff.
  intros [s [Hs Hin]]. apply filter_In in Hin. exists s. tauto.
Qed.

Lemma check_fit_strat_items (st : StrategyRequest) (nc ocols ncols : list string)
      (items : dict string) :
  _check_fit_strat st nc ocols ncols = Ok items ->
  forall c n, In (c, n) items -> In c ncols /\ mem n (keys strategies) = true.
Proof.
  unfold _check_fit_strat. destruct st as [s|m].
  - destruct (mem s (keys strategies)) eqn:E; [|discriminate].
    intros [= <-] c n Hin. apply in_map_iff in Hin.
    destruct Hin as [c' [[= <- <-] Hc]]. auto.
  - destruct (forallb _ m) eqn:E; [|discriminate].
    intros [= <-] c n Hin. apply in_map_iff in Hin.
    destruct Hin as [c' [[= <- <-] Hc]]. split; [exact Hc|].
    destruct (dict_get m c') as [n'|] eqn:G; [|reflexivity].
    apply dict_get_In in G. rewrite forallb_forall in E.
    specialize (E _ G). simpl in E. apply andb_true_iff in E. tauto.
Qed.

(** A failed [fit] failed in its precondition or in its validator: the
    strategy assignment and the statistics are those of before. *)
Lemma fit_failed_keeps (self self' : TimeSeriesImputer) (X : DataFrame) (e : error) :
  fit self X = (self', Err e) ->
  _strats self' = _strats self /\ statistics_ self' = statistics_ self.
Proof.
  unfold fit, fit_body, _fit_strategy_validator.
  destruct (check_missingness X); [|intros [= <- _]; auto].
  destruct (negb (is_DatetimeIndex (index X)) && Nat.eqb (length (select_datetime X)) 0);
    [intros [= <- _]; auto|].
  destruct (_nan_col_dropper X) as [X' nc] eqn:D. cbn [strategy with_nc].
  destruct (_check_fit_strat (strategy self) nc (col_names X) (col_names X'))
    as [items|e'] eqn:C.
  - cbn [_strats with_statistics with_strats].
    pose proof (fit_columns_ok X items) as Hok.
    destruct (fit_columns X items []) as [stats r] eqn:F.
    intros [= <- Hr]. exfalso.
    assert (snd (fit_columns X items []) = Ok tt) as Hs.
    { apply Hok. intros c n Hin.
      destruct (check_fit_strat_items _ _ _ _ _ C c n Hin) as [Hc Hn].
      split; [|exact Hn]. apply dropper_names_incl. rewrite D. exact Hc. }
    rewrite F in Hs. simpl in Hs. congruence.
  - intros [= <- _]. auto.
Qed.

Lemma transform_keeps_statistics (self : TimeSeriesImputer) (X : DataFrame)
      (g : RandomState) :
  statistics_ self = None ->
  transform self X g = (mkHeap self X None g,
                        if check_missingness X then Err NotFitted
                        else Err MissingnessRejected).
Proof.
  intros H. unfold transform, transform_body, bind, get_self. simpl.
  destruct (check_missingness X); [|reflexivity].
  rewrite H. reflexivity.
Qed.

Lemma unfitted_no_statistics (self : TimeSeriesImputer) :
  unfitted self -> statistics_ self = None.
Proof.
  induction 1 as [s fv ic vb self Hi | self X self' e _ IH Hf | self X g h r _ IH Ht].
  - unfold init in Hi. destruct (_check_strategy _ s); [|discriminate].
    injection Hi as <-. reflexivity.
  - destruct (fit_failed_keeps _ _ _ _ Hf) as [_ ->]. exact IH.
  - rewrite (transform_keeps_statistics self X g IH) in Ht.
    injection Ht as <- _. exact IH.
Qed.

(** C8.  On an imputer on which [fit] has never succeeded, [transform]
    of any frame that gets past the missingness precondition fails with
    NotFitted. *)
Theorem transform_before_fit_NotFitted
        (self : TimeSeriesImputer) (X : DataFrame) (g : RandomState) :
  unfitted self ->
  check_missingness X = true ->
  snd (transform self X g) = Err NotFitted.
Proof.
  intros Hu Hc.
  rewrite (transform_keeps_statistics self X g (unfitted_no_statistics self Hu)).
  rewrite Hc. reflexivity.
Qed.

Lemma transform_before_fit_NotFitted_witness :
  snd (transform (Scenario.imputer_of "linear") Scenario.dated Scenario.g0)
  = Err NotFitted.
Proof.
  apply transform_before_fit_NotFitted.
  - apply (unfitted_init (OneName "linear") None None false). reflexivity.
  - reflexivity.
Defined.

(** *** C7: the fitted columns have to be in the frame *)

(** C7.  On a fitted imputer, [transform] of a frame that lacks a column
    of the fitted strategy assignment fails with ColumnMismatch, and
    leaves the imputer, the frame and the generator as they were. *)
Theorem transform_ColumnMismatch
        (self : TimeSeriesImputer) (X : DataFrame) (g : RandomState)
        (stats : dict ColumnStatistics) (strats : dict string) (c : string) :
  statistics_ self = Some stats ->
  _strats self = Some strats ->
  check_missingness X = true ->
  In c (keys strats) ->
  ~ In c (col_names X) ->
  transform self X g = (mkHeap self X None g, Err ColumnMismatch).
Proof.
  intros Hs Hst Hc Hin Hout.
  unfold transform, transform_body, _transform_strategy_validator.
  rewrite Hc. run. rewrite Hs. run. rewrite Hst.
  destruct (difference_missing (keys strats) (col_names X) c Hin Hout) as [d [ds E]].
  rewrite E. reflexivity.
Qed.

Lemma transform_ColumnMismatch_witness :
  transform (mkImputer (OneName "mean") None None false (Some [])
                       (Some [("value", "mean"); ("other", "mean")])
                       (Some [("value", mkStat (PScalar (Scenario.num 3)) "mean");
                              ("other", mkStat (PScalar (Scenario.num 0)) "mean")]))
            Scenario.indexed Scenario.g0
  = (mkHeap (mkImputer (OneName "mean") None None false (Some [])
                       (Some [("value", "mean"); ("other", "mean")])
                       (Some [("value", mkStat (PScalar (Scenario.num 3)) "mean");
                              ("other", mkStat (PScalar (Scenario.num 0)) "mean")]))
            Scenario.indexed None Scenario.g0,
     Err ColumnMismatch).
Proof.
  eapply (transform_ColumnMismatch _ _ _ _ _ "other").
  - reflexivity.
  - reflexivity.
  - reflexivity.
  - simpl. right. left. reflexivity.
  - simpl. intros [H|[]]. discriminate H.
Defined.

(** *** C10: no time-typed column at transform *)

(** C10.  On a fitted imputer, [transform] of a frame whose index is not
    a DatetimeIndex and which has no time-typed column fails in every
    case; when the fitted columns are all there it fails with the
    IndexError of position 0 of the empty list of time-typed columns,
    where [fit] on the same frame raises its validation error. *)
Theorem transform_without_time_column
        (self : TimeSeriesImputer) (X : DataFrame) (g : RandomState)
        (stats : dict ColumnStatistics) (strats : dict string) :
  statistics_ self = Some stats ->
  _strats self = Some strats ->
  check_missingness X = true ->
  is_DatetimeIndex (index X) = false ->
  select_datetime X = [] ->
  is_err (snd (transform self X g)) = true
  /\ ((forall c, In c (keys strats) -> In c (col_names X)) ->
      transform self X g = (mkHeap self X None g, Err IndexError))
  /\ snd (fit self X) = Err MissingTemporalAxis.
Proof.
  intros Hs Hst Hc Hix Hts.
  assert (forall d, difference (keys strats) (col_names X) = d ->
                    transform self X g
                    = (mkHeap self X None g,
                       match d with [] => Err IndexError | _ => Err ColumnMismatch end))
    as Hd.
  { intros d E.
    unfold transform, transform_body, _transform_strategy_validator.
    rewrite Hc. run. rewrite Hs. run. rewrite Hst, E.
    destruct d; [|reflexivity].
    rewrite Hix, Hts. reflexivity. }
  split; [|split].
  - rewrite (Hd _ eq_refl). destruct (difference _ _); reflexivity.
  - intros Hall. apply difference_nil in Hall. rewrite (Hd _ Hall). reflexivity.
  - unfold fit, fit_body, _fit_strategy_validator.
    rewrite Hc, Hix, Hts. reflexivity.
Qed.

Lemma transform_without_time_column_witness :
  transform (mkImputer (OneName "mean") None None false (Some [])
                       (Some [("value", "mean")])
                       (Some [("value", mkStat (PScalar (Scenario.num 3)) "mean")]))
            (mkFrame (PlainIndex [0; 1]%Z)
                     [mkSeries "value" Numeric [Scenario.num 1; None]])
            Scenario.g0
  = (mkHeap (mkImputer (OneName "mean") None None false (Some [])
                       (Some [("value", "mean")])
                       (Some [("value", mkStat (PScalar (Scenario.num 3)) "mean")]))
            (mkFrame (PlainIndex [0; 1]%Z)
                     [mkSeries "value" Numeric [Scenario.num 1; None]])
            None Scenario.g0,
     Err IndexError).
Proof.
  refine (proj1 (proj2 (transform_without_time_column _ _ _ _ _ _ _ _ _ _)) _).
  - reflexivity.
  - reflexivity.
  - reflexivity.
  - reflexivity.
  - reflexivity.
  - simpl. intros c [<-|[]]. left. reflexivity.
Defined.

(** *** C6: which column becomes the index *)

Lemma select_datetime_get_col (X : DataFrame) (c : string) :
  In c (map name (select_datetime X)) -> exists s, get_col X c = Some s.
Proof.
  intros H. apply get_col_In. unfold col_names.
  apply in_map_iff in H. destruct H as [s [Hn Hs]].
  apply filter_In in Hs. apply in_map_iff. exists s. tauto.
Qed.

(** Popping [c] from the strategy assignment and setting column [c] as
    the index of a new frame. *)
Lemma promote_run (self : TimeSeriesImputer) (X X' : DataFrame) (g : RandomState)
      (strats : dict string) (c : string) :
  _strats self = Some strats ->
  set_index X c = Some X' ->
  (pop_strat c ;;; reindex c) (mkHeap self X None g)
  = (mkHeap (with_strats self (dict_pop strats c)) X (Some X') g, Ok tt).
Proof.
  intros Hst Hsi. unfold pop_strat, reindex. run. rewrite Hst. run.
  rewrite Hsi. reflexivity.
Qed.

(** What the validator of [transform] leaves when it promotes column [c]
    of the caller's frame [X]: the column is popped from the strategy
    assignment and [X] names a new frame, indexed by the column and
    sorted; the caller's frame is as it was. *)
Definition promotes (self : TimeSeriesImputer) (X : DataFrame) (g : RandomState)
           (strats : dict string) (c : string) : Prop :=
  exists X', set_index X c = Some X'
             /\ _transform_strategy_validator (mkHeap self X None g)
                = (mkHeap (with_strats self (dict_pop strats c)) X
                          (Some (sort_index X')) g, Ok tt).

(** C6.  When the index is not a DatetimeIndex and the frame has several
    time-typed columns: an [index_column] that is one of them is
    promoted; without [index_column] the first time-typed column is
    promoted; an [index_column] that is not one of them makes the
    validator, and so [transform], fail with InvalidIndexColumn. *)
Theorem transform_index_column_choice
        (self : TimeSeriesImputer) (X : DataFrame) (g : RandomState)
        (strats : dict string) (first second : Series) (rest : list Series) :
  _strats self = Some strats ->
  (forall c, In c (keys strats) -> In c (col_names X)) ->
  is_DatetimeIndex (index X) = false ->
  select_datetime X = first :: second :: rest ->
  (forall ic, index_column self = Some ic ->
              In ic (map name (select_datetime X)) ->
              promotes self X g strats ic)
  /\ (index_column self = None -> promotes self X g strats (name first))
  /\ (forall ic, index_column self = Some ic ->
                 ~ In ic (map name (select_datetime X)) ->
                 _transform_strategy_validator (mkHeap self X None g)
                 = (mkHeap self X None g, Err InvalidIndexColumn)
                 /\ (statistics_ self <> None -> check_missingness X = true ->
                     transform self X g = (mkHeap self X None g, Err InvalidIndexColumn))).
Proof.
  intros Hst Hall Hix Hts. apply difference_nil in Hall.
  assert (_transform_strategy_validator (mkHeap self X None g)
             = ((match index_column self with
                 | None => pop_strat (name first) ;;; reindex (name first)
                 | Some ic =>
                     if mem ic (map name (select_datetime X))
                     then pop_strat ic ;;; reindex ic
                     else raise InvalidIndexColumn
                 end) ;;; X1 <- get_X ;; put_X (sort_index X1)) (mkHeap self X None g))
    as Hv.
  { unfold _transform_strategy_validator at 1. run.
    rewrite Hst, Hall, Hix. unfold when. cbn [negb].
    rewrite Hts. cbn [length Nat.eqb]. rewrite <- Hts. reflexivity. }
  split; [|split].
  - intros ic Hic Hin.
    destruct (select_datetime_get_col X ic Hin) as [s Hs].
    exists (mkFrame (DatetimeIndex (map stamp_of (values s)))
                    (filter (fun s' => negb (String.eqb (name s') ic)) (columns X))).
    assert (set_index X ic = Some (mkFrame (DatetimeIndex (map stamp_of (values s)))
                    (filter (fun s' => negb (String.eqb (name s') ic)) (columns X))))
      as Hsi by (unfold set_index; rewrite Hs; reflexivity).
    split; [exact Hsi|].
    rewrite Hv, Hic. apply mem_In in Hin. rewrite Hin.
    unfold bind at 1. rewrite (promote_run self X _ g strats ic Hst Hsi). reflexivity.
  - intros Hic.
    assert (In (name first) (map name (select_datetime X))) as Hin
        by (rewrite Hts; left; reflexivity).
    destruct (select_datetime_get_col X (name first) Hin) as [s Hs].
    exists (mkFrame (DatetimeIndex (map stamp_of (values s)))
                    (filter (fun s' => negb (String.eqb (name s') (name first)))
                            (columns X))).
    assert (set_index X (name first)
            = Some (mkFrame (DatetimeIndex (map stamp_of (values s)))
                    (filter (fun s' => negb (String.eqb (name s') (name first)))
                            (columns X))))
      as Hsi by (unfold set_index; rewrite Hs; reflexivity).
    split; [exact Hsi|].
    rewrite Hv, Hic.
    unfold bind at 1. rewrite (promote_run self X _ g strats _ Hst Hsi). reflexivity.
  - intros ic Hic Hout.
    assert (mem ic (map name (select_datetime X)) = false) as Hm.
    { destruct (mem ic (map name (select_datetime X))) eqn:E; [|reflexivity].
      apply mem_In in E. contradiction. }
    assert (_transform_strategy_validator (mkHeap self X None g)
            = (mkHeap self X None g, Err InvalidIndexColumn)) as Hr.
    { rewrite Hv, Hic, Hm. reflexivity. }
    split; [exact Hr|].
    intros Hs Hc. unfold transform, transform_body. rewrite Hc. run.
    destruct (statistics_ self) as [stats|]; [|congruence].
    change (match _transform_strategy_validator (mkHeap self X None g) with
            | (h', Ok _) => (self' <- get_self ;;
                             match statistics_ self' with
                             | None => raise AttributeError
                             | Some stats0 => for_each stats0 fill_column ;;; get_X
                             end) h'
            | (h', Err e) => (h', Err e)
            end = (mkHeap self X None g, Err InvalidIndexColumn)).
    rewrite Hr. reflexivity.
Qed.

Module TwoDates.

(** Two time-typed columns and a numeric one, over a default index. *)
Definition frame : DataFrame :=
  mkFrame (PlainIndex [0; 1; 2]%Z)
          [ mkSeries "opened" Datetime [Scenario.day 3; Scenario.day 1; Scenario.day 2];
            mkSeries "value" Numeric [Scenario.num 1; None; Scenario.num 3];
            mkSeries "closed" Datetime [Scenario.day 6; Scenario.day 5; Scenario.day 4] ].

(** An imputer fitted on the column [value], with the given [index_column]. *)
Definition fitted_with (ic : option string) : TimeSeriesImputer :=
  mkImputer (PerColumn [("value", "mean")]) None ic false (Some [])
            (Some [("value", "mean")])
            (Some [("value", mkStat (PScalar (Scenario.num 2)) "mean")]).

End TwoDates.

Lemma transform_index_column_choice_witness :
  promotes (TwoDates.fitted_with (Some "closed")) TwoDates.frame Scenario.g0
           [("value", "mean")] "closed"
  /\ promotes (TwoDates.fitted_with None) TwoDates.frame Scenario.g0
              [("value", "mean")] "opened"
  /\ transform (TwoDates.fitted_with (Some "value")) TwoDates.frame Scenario.g0
     = (mkHeap (TwoDates.fitted_with (Some "value")) TwoDates.frame None Scenario.g0,
        Err InvalidIndexColumn).
Proof.
  assert (forall c, In c (keys [("value", "mean")]) -> In c (col_names TwoDates.frame))
    as Hall by (simpl; intros c [<-|[]]; right; left; reflexivity).
  split; [|split].
  - refine (proj1 (transform_index_column_choice
                     (TwoDates.fitted_with (Some "closed")) TwoDates.frame Scenario.g0
                     [("value", "mean")] _ _ _ eq_refl Hall eq_refl eq_refl)
                  "closed" eq_refl _).
    simpl. right. left. reflexivity.
  - exact (proj1 (proj2 (transform_index_column_choice
                     (TwoDates.fitted_with None) TwoDates.frame Scenario.g0
                     [("value", "mean")] _ _ _ eq_refl Hall eq_refl eq_refl))
                 eq_refl).
  - refine (proj2 (proj2 (proj2 (transform_index_column_choice
                     (TwoDates.fitted_with (Some "value")) TwoDates.frame Scenario.g0
                     [("value", "mean")] _ _ _ eq_refl Hall eq_refl eq_refl))
                 "value" eq_refl _) _ eq_refl).
    + simpl. intros [H|[H|[]]]; discriminate H.
    + simpl. discriminate.
Defined.

(** *** The loop of transform as a function of the cells *)

Definition result_map {A B : Type} (f : A -> B) (r : result A) : result B :=
  match r with Ok a => Ok (f a) | Err e => Err e end.

(** What one round of the loop does to the cells [cs] of its column:
    the generator it leaves, and the new cells ([None] when the column is
    not touched) or the error. *)
Definition fill_cells (fv : option string) (ks : list (option Z)) (p : Param)
           (st : string) (cs : list cell) (g : RandomState)
  : RandomState * result (option (list cell)) :=
  let imp_ind := null_labels ks cs in
  if is_in st ["mean"; "median"] then
    match p with
    | PScalar (Some v) => (g, Ok (Some (fillna v cs)))
    | PScalar None => (g, Ok (Some cs))
    | PNothing => (g, Err ValueError)
    | _ => (g, Err TypeError)
    end
  else if String.eqb st "mode" then (g, result_map Some (_mode_output cs p fv))
  else if String.eqb st "random" then
    match p with
    | PArray a | PModes a =>
        match choice a (length imp_ind) g with
        | (g', Ok fills) => (g', result_map Some (loc_assign ks imp_ind fills cs))
        | (g', Err e) => (g', Err e)
        end
    | _ => (g, Err ValueError)
    end
  else if is_in st ["linear"; "time"] then (g, result_map Some (_interp ks cs st))
  else if String.eqb st "norm" then
    match p with
    | PNorm mu sd =>
        let '(g', fills) := norm_rvs mu sd (length imp_ind) g in
        (g', result_map Some (loc_assign ks imp_ind fills cs))
    | _ => (g, Err TypeError)
    end
  else (g, Ok None).

(** The heap after an in-place change of [X]. *)
Definition written (self : TimeSeriesImputer) (P : DataFrame) (m : option DataFrame)
           (g : RandomState) (X : DataFrame) : Heap :=
  match m with
  | Some _ => mkHeap self P (Some X) g
  | None => mkHeap self X None g
  end.

Lemma strat_tests (st : string) :
  (is_in st ["mean"; "median"] = true /\ String.eqb st "mode" = false
   /\ String.eqb st "random" = false /\ is_in st ["linear"; "time"] = false
   /\ String.eqb st "norm" = false /\ String.eqb st "none" = false)
  \/ (is_in st ["mean"; "median"] = false /\ String.eqb st "mode" = true
      /\ String.eqb st "random" = false /\ is_in st ["linear"; "time"] = false
      /\ String.eqb st "norm" = false /\ String.eqb st "none" = false)
  \/ (is_in st ["mean"; "median"] = false /\ String.eqb st "mode" = false
      /\ String.eqb st "random" = true /\ is_in st ["linear"; "time"] = false
      /\ String.eqb st "norm" = false /\ String.eqb st "none" = false)
  \/ (is_in st ["mean"; "median"] = false /\ String.eqb st "mode" = false
      /\ String.eqb st "random" = false /\ is_in st ["linear"; "time"] = true
      /\ String.eqb st "norm" = false /\ String.eqb st "none" = false)
  \/ (is_in st ["mean"; "median"] = false /\ String.eqb st "mode" = false
      /\ String.eqb st "random" = false /\ is_in st ["linear"; "time"] = false
      /\ String.eqb st "norm" = true /\ String.eqb st "none" = false)
  \/ (is_in st ["mean"; "median"] = false /\ String.eqb st "mode" = false
      /\ String.eqb st "random" = false /\ is_in st ["linear"; "time"] = false
      /\ String.eqb st "norm" = false).
Proof.
  unfold is_in, mem. cbn [existsb]. rewrite !orb_false_r.
  rewrite !(String.eqb_sym st).
  destruct (String.eqb "mean" st) eqn:E1;
    [apply String.eqb_eq in E1; subst st; left; repeat split; reflexivity|].
  destruct (String.eqb "median" st) eqn:E2;
    [apply String.eqb_eq in E2; subst st; left; repeat split; reflexivity|].
  destruct (String.eqb "mode" st) eqn:E3;
    [apply String.eqb_eq in E3; subst st; right; left; repeat split; reflexivity|].
  destruct (String.eqb "random" st) eqn:E4;
    [apply String.eqb_eq in E4; subst st; do 2 right; left; repeat split; reflexivity|].
  destruct (String.eqb "linear" st) eqn:E5;
    [apply String.eqb_eq in E5; subst st; do 3 right; left; repeat split; reflexivity|].
  destruct (String.eqb "time" st) eqn:E6;
    [apply String.eqb_eq in E6; subst st; do 3 right; left; repeat split; reflexivity|].
  destruct (String.eqb "norm" st) eqn:E7;
    [apply String.eqb_eq in E7; subst st; do 4 right; left; repeat split; reflexivity|].
  do 5 right. repeat split; reflexivity.
Qed.

(** One round of the loop of [transform], in terms of [fill_cells]. *)
Lemma fill_column_eq (self : TimeSeriesImputer) (P : DataFrame) (m : option DataFrame)
      (g : RandomState) (c : string) (p : Param) (st : string) :
  fill_column (c, mkStat p st) (mkHeap self P m g)
  = match get_col (local (mkHeap self P m g)) c with
    | None => (mkHeap self P m g, Err (KeyError c))
    | Some s =>
        match fill_cells (fill_value self)
                         (index_keys (index (local (mkHeap self P m g))))
                         p st (values s) g with
        | (g', Ok (Some vs)) =>
            (written self P m g' (set_col_values (local (mkHeap self P m g)) c vs), Ok tt)
        | (g', Ok None) => (mkHeap self P m g', Ok tt)
        | (g', Err e) => (mkHeap self P m g', Err e)
        end
    end.
Proof.
  unfold fill_column, fill_cells. cbn [strat param]. run.
  destruct (get_col match m with Some X => X | None => P end c) as [s|] eqn:Hcol;
    [|reflexivity].
  destruct (strat_tests st) as [T|[T|[T|[T|[T|T]]]]];
    repeat match type of T with _ /\ _ => destruct T as [?T T] end;
    repeat match goal with H : _ = true |- _ => rewrite H | H : _ = false |- _ => rewrite H end;
    unfold when, on_column, with_random, lift; run.
  - destruct m; run; rewrite Hcol; destruct p as [|[v|]| | |]; reflexivity.
  - destruct m; run; rewrite Hcol;
      destruct (_mode_output (values s) p (fill_value self)); reflexivity.
  - destruct m; run; destruct p as [|[v|]|a|a|]; try reflexivity;
      (destruct (choice a _ g) as [g' [fills|e]]; run; [|reflexivity];
       rewrite Hcol; run; destruct (loc_assign _ _ fills (values s)); reflexivity).
  - destruct m; run; rewrite Hcol;
      destruct (_interp _ (values s) st); reflexivity.
  - destruct m; run; destruct p as [|[v|]|a|a|mu sd]; try reflexivity;
      (destruct (norm_rvs mu sd _ g) as [g' fills]; run;
       rewrite Hcol; run; destruct (loc_assign _ _ fills (values s)); reflexivity).
  - destruct (String.eqb st "none"); reflexivity.
Qed.

(** *** What a fill does to the cells *)

(** [vs] has the observed cells of [cs], at their places. *)
Definition keeps (cs vs : list cell) : Prop :=
  Forall2 (fun c c' => c = None \/ c' = c) cs vs.

Lemma keeps_refl (cs : list cell) : keeps cs cs.
Proof. induction cs; constructor; auto. Qed.

Lemma keeps_trans (a b c : list cell) : keeps a b -> keeps b c -> keeps a c.
Proof.
  intros H. revert c. induction H as [|x y a b Hxy _ IH]; intros c Hc; inversion Hc; subst.
  - constructor.
  - constructor; [|apply IH; assumption].
    destruct Hxy as [E|E]; rewrite E in *; [left; reflexivity|assumption].
Qed.

Lemma keeps_length (cs vs : list cell) : keeps cs vs -> length vs = length cs.
Proof. intros H. symmetry. exact (Forall2_length H). Qed.

Lemma keeps_nth (cs vs : list cell) (i : nat) (v : value) :
  keeps cs vs -> nth i cs None = Some v -> nth i vs None = Some v.
Proof.
  intros H. revert i. induction H as [|x y a b Hxy _ IH]; intros i Hi.
  - destruct i; discriminate Hi.
  - destruct i as [|i]; simpl in *.
    + destruct Hxy as [E|E]; rewrite E in *; [discriminate Hi | exact Hi].
    + apply IH. exact Hi.
Qed.

Lemma fillna_keeps (v : value) (cs : list cell) : keeps cs (fillna v cs).
Proof.
  induction cs as [|[w|] cs IH]; simpl; constructor;
    try (right; reflexivity); try (left; reflexivity); exact IH.
Qed.

Lemma fill_with_keeps (fills cs : list cell) : keeps cs (fill_with fills cs).
Proof.
  revert fills. induction cs as [|[w|] cs IH]; intros fills; simpl.
  - constructor.
  - constructor; [right; reflexivity | apply IH].
  - destruct fills as [|f fills].
    + apply keeps_refl.
    + constructor; [left; reflexivity | apply IH].
Qed.

Lemma interp_from_keeps (prev : option (Q * Q)) (xs : list Q) (cs : list cell) :
  keeps cs (interp_from prev xs cs).
Proof.
  revert prev xs. induction cs as [|c cs IH]; intros prev xs.
  - destruct xs; constructor.
  - destruct xs as [|x xs].
    + simpl. destruct c as [[q|s|t]|]; apply keeps_refl.
    + destruct c as [[q|s|t]|]; simpl; constructor;
        try (right; reflexivity); try (left; reflexivity); apply IH.
Qed.

(** The cells without missing value. *)
Definition complete (cs : list cell) : Prop := Forall (fun c => c <> None) cs.



Lemma keeps_complete (cs vs : list cell) : keeps cs vs -> complete cs -> complete vs.
Proof.
  induction 1 as [|x y a b Hxy _ IH]; intros Hc; inversion Hc; subst; constructor.
  - destruct Hxy as [E|E]; rewrite E in *; [contradiction | assumption].
  - apply IH. assumption.
Qed.

(** *** Assignment by label when the labels are distinct *)

Lemma positions_of_absent (lab : option Z) (i : nat) (ks : list (option Z)) :
  ~ In lab ks -> positions_of lab i ks = [].
Proof.
  revert i. induction ks as [|k ks IH]; intros i H; simpl; [reflexivity|].
  destruct (key_eqb k lab) eqn:E.
  - exfalso. apply H. left.
    destruct k, lab; simpl in E; try discriminate; [|reflexivity].
    apply Z.eqb_eq in E. congruence.
  - apply IH. intros Hin. apply H. right. exact Hin.
Qed.

Lemma key_eqb_refl (k : option Z) : key_eqb k k = true.
Proof. destruct k; simpl; [apply Z.eqb_refl | reflexivity]. Qed.

Lemma key_eqb_eq (a b : option Z) : key_eqb a b = true -> a = b.
Proof.
  destruct a, b; simpl; try discriminate; [|reflexivity].
  intros H. apply Z.eqb_eq in H. congruence.
Qed.

(** In an index of distinct labels the label of a row reaches that row
    and no other. *)
Lemma positions_of_unique (ks : list (option Z)) (p i : nat) :
  NoDup ks -> p < length ks ->
  positions_of (nth p ks None) i ks = [i + p].
Proof.
  revert p i. induction ks as [|k ks IH]; intros p i Hnd Hp; simpl in Hp; [lia|].
  inversion Hnd as [|? ? Hk Hnd']; subst.
  destruct p as [|p]; simpl.
  - rewrite key_eqb_refl, positions_of_absent by assumption.
    f_equal. lia.
  - destruct (key_eqb k (nth p ks None)) eqn:E.
    + exfalso. apply key_eqb_eq in E. apply Hk. rewrite E. apply nth_In. lia.
    + rewrite IH by (assumption || lia). f_equal. lia.
Qed.

Lemma missing_positions_bound (i : nat) (cs : list cell) (p : nat) :
  In p (missing_positions i cs) -> i <= p < i + length cs.
Proof.
  revert i. induction cs as [|c cs IH]; intros i H; simpl in *; [contradiction|].
  destruct (isnull c); simpl in H.
  - destruct H as [<-|H]; [lia|]. apply IH in H. lia.
  - apply IH in H. lia.
Qed.

Lemma missing_positions_length (i : nat) (cs : list cell) :
  length (missing_positions i cs) = n_missing cs.
Proof.
  unfold n_missing. revert i. induction cs as [|c cs IH]; intros i; simpl; [reflexivity|].
  destruct (isnull c); simpl; rewrite IH; reflexivity.
Qed.

Lemma null_labels_length (ks : list (option Z)) (cs : list cell) :
  length (null_labels ks cs) = n_missing cs.
Proof.
  unfold null_labels. rewrite length_map. apply missing_positions_length.
Qed.

Lemma indexer_unique (ks : list (option Z)) (ps : list nat) :
  NoDup ks -> (forall p, In p ps -> p < length ks) ->
  flat_map (fun lab => positions_of lab 0 ks) (map (fun p => nth p ks None) ps) = ps.
Proof.
  intros Hnd. induction ps as [|p ps IH]; intros Hb; simpl; [reflexivity|].
  rewrite positions_of_unique by (auto; apply Hb; left; reflexivity).
  simpl. f_equal. apply IH. intros q Hq. apply Hb. right. exact Hq.
Qed.

Lemma upd_app (A : Type) (pre l : list A) (v : A) (p : nat) :
  upd (length pre + p) v (pre ++ l) = pre ++ upd p v l.
Proof.
  induction pre as [|x pre IH]; simpl; [reflexivity|]. rewrite IH. reflexivity.
Qed.

(** Writing the fills one by one at the missing positions. *)
Lemma write_at_missing (pre cs fills : list cell) :
  length fills = n_missing cs ->
  fold_left (fun acc pv => upd (fst pv) (snd pv) acc)
            (combine (missing_positions (length pre) cs) fills) (pre ++ cs)
  = pre ++ fill_with fills cs.
Proof.
  unfold n_missing. revert pre fills.
  induction cs as [|c cs IH]; intros pre fills Hl; simpl in *.
  - reflexivity.
  - destruct c as [v|]; simpl in *.
    + specialize (IH (pre ++ [Some v]) fills Hl).
      rewrite length_app in IH. simpl in IH. rewrite Nat.add_1_r in IH.
      rewrite <- !app_assoc in IH. simpl in IH. exact IH.
    + destruct fills as [|f fills]; simpl in Hl; [discriminate|].
      simpl. replace (length pre) with (length pre + 0) at 2 by lia.
      rewrite upd_app. simpl.
      specialize (IH (pre ++ [f]) fills ltac:(lia)).
      rewrite length_app in IH. simpl in IH. rewrite Nat.add_1_r in IH.
      rewrite <- !app_assoc in IH. simpl in IH. exact IH.
Qed.

(** With distinct labels the assignment by label is the assignment at
    the missing positions. *)
Lemma loc_assign_unique (ks : list (option Z)) (fills cs : list cell) :
  NoDup ks -> length ks = length cs -> length fills = n_missing cs ->
  loc_assign ks (null_labels ks cs) fills cs = Ok (fill_with fills cs).
Proof.
  intros Hnd Hlen Hf. unfold loc_assign, null_labels.
  rewrite indexer_unique.
  - rewrite missing_positions_length, Hf, Nat.eqb_refl.
    f_equal. exact (write_at_missing [] cs fills Hf).
  - exact Hnd.
  - intros p Hp. apply missing_positions_bound in Hp. lia.
Qed.

(** *** Frames through the loop *)

(** Distinct column names, and columns as long as the index. *)
Definition shaped (X : DataFrame) : Prop :=
  NoDup (col_names X)
  /\ Forall (fun s => length (values s) = length (index_keys (index X))) (columns X).

Lemma nrows_keys (X : DataFrame) : nrows X = length (index_keys (index X)).
Proof.
  unfold nrows. destruct (index X) as [l|l]; simpl; [rewrite length_map|]; reflexivity.
Qed.

Lemma get_col_some (X : DataFrame) (c : string) (s : Series) :
  get_col X c = Some s -> In s (columns X) /\ name s = c.
Proof.
  unfold get_col. intros H. apply find_some in H.
  destruct H as [Hin He]. apply String.eqb_eq in He. auto.
Qed.

Lemma NoDup_names_unique (l : list Series) (s s' : Series) :
  NoDup (map name l) -> In s l -> In s' l -> name s = name s' -> s = s'.
Proof.
  induction l as [|x l IH]; simpl; intros Hnd Hs Hs' Hn; [contradiction|].
  inversion Hnd as [|? ? Hx Hnd']; subst.
  destruct Hs as [->|Hs], Hs' as [->|Hs'].
  - reflexivity.
  - exfalso. apply Hx. rewrite Hn. apply in_map. exact Hs'.
  - exfalso. apply Hx. rewrite <- Hn. apply in_map. exact Hs.
  - apply IH; assumption.
Qed.

Lemma Forall2_map_self (A : Type) (R : A -> A -> Prop) (f : A -> A) (l : list A) :
  (forall x, In x l -> R x (f x)) -> Forall2 R l (map f l).
Proof.
  induction l as [|x l IH]; intros H; simpl; constructor.
  - apply H. left. reflexivity.
  - apply IH. intros y Hy. apply H. right. exact Hy.
Qed.

(** The imputer and the caller's frame through a round of the loop:
    [h'] has the objects of [h], and only [X] may differ. *)
Definition same_objects (h h' : Heap) : Prop :=
  imputer h' = imputer h
  /\ match made h with
     | Some _ => passed h' = passed h /\ made h' <> None
     | None => made h' = None
     end.

Lemma same_objects_refl (h : Heap) : same_objects h h.
Proof.
  unfold same_objects. split; [reflexivity|].
  destruct (made h); [split; [reflexivity | discriminate] | reflexivity].
Qed.

Lemma same_objects_trans (a b c : Heap) :
  same_objects a b -> same_objects b c -> same_objects a c.
Proof.
  unfold same_objects. intros [Hi Hm] [Hi' Hm']. split; [congruence|].
  destruct (made a).
  - destruct Hm as [Hp Hn]. destruct (made b); [|contradiction].
    destruct Hm' as [Hp' Hn']. split; [congruence | assumption].
  - rewrite Hm in Hm'. exact Hm'.
Qed.

Section Loop.

(** A relation between the cells of a column before and after a fill,
    which holds of every fill when the index satisfies [C]. *)
Variable R : list cell -> list cell -> Prop.
Variable C : list (option Z) -> Prop.
Hypothesis R_refl : forall cs, R cs cs.
Hypothesis R_trans : forall a b c, R a b -> R b c -> R a c.
Hypothesis R_length : forall cs vs, R cs vs -> length vs = length cs.
Hypothesis R_step :
  forall fv ks p st cs g g' vs,
    C ks -> length ks = length cs ->
    fill_cells fv ks p st cs g = (g', Ok (Some vs)) -> R cs vs.

(** [Y] has the index and the columns of [X], the cells of each
    column related by [R]. *)
Definition related (X Y : DataFrame) : Prop :=
  index Y = index X
  /\ Forall2 (fun s s' => name s' = name s /\ dty s' = dty s
                          /\ R (values s) (values s'))
             (columns X) (columns Y).

Lemma related_refl (X : DataFrame) : related X X.
Proof.
  split; [reflexivity|]. induction (columns X); constructor; auto.
Qed.

Lemma related_trans (X Y Z : DataFrame) : related X Y -> related Y Z -> related X Z.
Proof.
  intros [Hi H] [Hi' H']. split; [congruence|].
  revert H'. generalize (columns Z). induction H as [|x y a b Hxy _ IH]; intros l H';
    inversion H'; subst; constructor.
  - destruct Hxy as [? [? ?]].
    match goal with H : _ /\ _ /\ _ |- _ => destruct H as [? [? ?]] end.
    repeat split; try congruence. eapply R_trans; eassumption.
  - apply IH. assumption.
Qed.

Lemma related_names (X Y : DataFrame) : related X Y -> col_names Y = col_names X.
Proof.
  intros [_ H]. unfold col_names.
  induction H as [|x y a b [Hn _] _ IH]; simpl; [reflexivity|]. congruence.
Qed.

Lemma related_shaped (X Y : DataFrame) : shaped X -> related X Y -> shaped Y.
Proof.
  intros [Hnd Hlen] Hr. split.
  - rewrite (related_names _ _ Hr). exact Hnd.
  - destruct Hr as [Hi H]. rewrite Hi. clear Hnd.
    induction H as [|x y a b [_ [_ Hxy]] _ IH]; constructor.
    + inversion Hlen; subst. rewrite (R_length _ _ Hxy). assumption.
    + apply IH. inversion Hlen; assumption.
Qed.

Lemma set_col_related (X : DataFrame) (c : string) (s : Series) (vs : list cell) :
  NoDup (col_names X) -> get_col X c = Some s -> R (values s) vs ->
  related X (set_col_values X c vs).
Proof.
  intros Hnd Hg Hr. destruct (get_col_some _ _ _ Hg) as [Hin Hn].
  split; [reflexivity|]. unfold set_col_values. cbn [columns].
  apply Forall2_map_self. intros x Hx.
  destruct (String.eqb (name x) c) eqn:E.
  - apply String.eqb_eq in E.
    assert (x = s) as -> by (apply (NoDup_names_unique (columns X)); auto; congruence).
    simpl. auto.
  - auto.
Qed.

Lemma written_local (self : TimeSeriesImputer) (P : DataFrame) (m : option DataFrame)
      (g : RandomState) (X : DataFrame) :
  local (written self P m g X) = X.
Proof. destruct m; reflexivity. Qed.

Lemma written_same_objects (self : TimeSeriesImputer) (P : DataFrame)
      (m : option DataFrame) (g g' : RandomState) (X : DataFrame) :
  same_objects (mkHeap self P m g) (written self P m g' X).
Proof.
  unfold same_objects. destruct m; simpl; split; try reflexivity.
  split; [reflexivity | discriminate].
Qed.

(** One round of the loop relates [X] before and after, whether it
    ends well or not. *)
Lemma fill_column_related (h h' : Heap) (kv : string * ColumnStatistics)
      (r : result unit) :
  shaped (local h) -> C (index_keys (index (local h))) ->
  fill_column kv h = (h', r) ->
  related (local h) (local h') /\ same_objects h h'.
Proof.
  destruct h as [self P m g]. destruct kv as [c [p st]].
  intros [Hnd Hlen] HC. rewrite fill_column_eq.
  destruct (get_col (local (mkHeap self P m g)) c) as [s|] eqn:Hg.
  - destruct (fill_cells _ _ p st (values s) g) as [g' [[vs|]|e]] eqn:Hf.
    + intros [= <- _]. rewrite written_local. split.
      * apply (set_col_related _ c s); [assumption..|].
        eapply R_step; [exact HC | | exact Hf].
        destruct (get_col_some _ _ _ Hg) as [Hin _].
        rewrite Forall_forall in Hlen. symmetry. apply Hlen. exact Hin.
      * apply written_same_objects.
    + intros [= <- _]. split; [apply related_refl|].
      exact (same_objects_refl (mkHeap self P m g)).
    + intros [= <- _]. split; [apply related_refl|].
      exact (same_objects_refl (mkHeap self P m g)).
  - intros [= <- _]. split; [apply related_refl | apply same_objects_refl].
Qed.

(** The whole loop. *)
Lemma for_each_related (stats : dict ColumnStatistics) (h h' : Heap) (r : result unit) :
  shaped (local h) -> C (index_keys (index (local h))) ->
  for_each stats fill_column h = (h', r) ->
  related (local h) (local h') /\ same_objects h h'.
Proof.
  revert h. induction stats as [|kv stats IH]; intros h Hs HC; simpl.
  - intros [= <- _]. split; [apply related_refl | apply same_objects_refl].
  - unfold bind. destruct (fill_column kv h) as [h1 [[]|e]] eqn:Hf.
    + destruct (fill_column_related _ _ _ _ Hs HC Hf) as [Hr Ho].
      intros Hl. apply IH in Hl.
      * destruct Hl as [Hr' Ho']. split.
        -- eapply related_trans; eassumption.
        -- eapply same_objects_trans; eassumption.
      * eapply related_shaped; eassumption.
      * destruct Hr as [-> _]. exact HC.
    + intros [= <- _]. exact (fill_column_related _ _ _ _ Hs HC Hf).
Qed.

End Loop.

(** *** The fills keep the length and, with distinct labels, the observed cells *)

Lemma upd_length (A : Type) (p : nat) (v : A) (l : list A) : length (upd p v l) = length l.
Proof.
  revert p. induction l as [|x l IH]; intros p; simpl; [reflexivity|].
  destruct p; simpl; [reflexivity | rewrite IH; reflexivity].
Qed.

Lemma loc_assign_length (ks imp_ind : list (option Z)) (fills cs vs : list cell) :
  loc_assign ks imp_ind fills cs = Ok vs -> length vs = length cs.
Proof.
  unfold loc_assign.
  assert (forall (l : list (nat * cell)) acc,
             length (fold_left (fun acc pv => upd (fst pv) (snd pv) acc) l acc)
             = length acc) as H1.
  { induction l as [|pv l IH]; intros acc; simpl; [reflexivity|].
    rewrite IH. apply upd_length. }
  assert (forall f (l : list nat) (acc : list cell),
             length (fold_left (fun acc p => upd p f acc) l acc) = length acc) as H2.
  { intros f. induction l as [|q l IH]; intros acc; simpl; [reflexivity|].
    rewrite IH. apply upd_length. }
  destruct (Nat.eqb _ _).
  - intros [= <-]. apply H1.
  - destruct fills as [|f [|f' fills]]; try discriminate.
    intros [= <-]. apply H2.
Qed.

Lemma choice_length (a : list value) (n : nat) (g g' : RandomState) (fills : list cell) :
  choice a n g = (g', Ok fills) -> length fills = n.
Proof.
  unfold choice. destruct a as [|v a].
  - destruct (Nat.eqb n 0) eqn:E; [|discriminate].
    intros [= _ <-]. apply Nat.eqb_eq in E. subst. reflexivity.
  - intros [= _ <-]. rewrite length_map, length_seq. reflexivity.
Qed.

Lemma norm_rvs_length (mu sd : option Q) (n : nat) (g g' : RandomState)
      (fills : list cell) :
  norm_rvs mu sd n g = (g', fills) -> length fills = n.
Proof.
  unfold norm_rvs. intros [= _ <-]. rewrite length_map, length_seq. reflexivity.
Qed.

Lemma mode_output_keeps (cs vs : list cell) (p : Param) (fv : option string) :
  _mode_output cs p fv = Ok vs -> keeps cs vs.
Proof.
  unfold _mode_output. destruct p as [|v|[|m ms]|a|mu sd]; try discriminate.
  destruct fv; intros [= <-]; [apply fill_with_keeps | apply fillna_keeps].
Qed.

Lemma interp_keeps (ks : list (option Z)) (cs vs : list cell) (st : string) :
  _interp ks cs st = Ok vs -> keeps cs vs.
Proof.
  unfold _interp. destruct (String.eqb st "time").
  - destruct (all_stamps ks); [|discriminate].
    intros [= <-]. apply interp_from_keeps.
  - intros [= <-]. apply interp_from_keeps.
Qed.

(** Whatever the index, a fill leaves the column as long as it was. *)
Lemma fill_cells_length (fv : option string) (ks : list (option Z)) (p : Param)
      (st : string) (cs : list cell) (g g' : RandomState) (vs : list cell) :
  fill_cells fv ks p st cs g = (g', Ok (Some vs)) -> length vs = length cs.
Proof.
  unfold fill_cells.
  destruct (is_in st ["mean"; "median"]).
  { destruct p as [|[v|]|a|a|mu sd]; try discriminate; intros [= _ <-];
      [apply keeps_length, fillna_keeps | reflexivity]. }
  destruct (String.eqb st "mode").
  { destruct (_mode_output cs p fv) as [vs'|] eqn:E; [|discriminate].
    intros [= _ <-]. apply keeps_length. exact (mode_output_keeps _ _ _ _ E). }
  destruct (String.eqb st "random").
  { destruct p as [|v|a|a|mu sd]; try discriminate;
      (destruct (choice a _ g) as [g1 [fills|e]]; [|discriminate];
       destruct (loc_assign ks _ fills cs) as [vs'|] eqn:E; [|discriminate];
       intros [= _ <-]; exact (loc_assign_length _ _ _ _ _ E)). }
  destruct (is_in st ["linear"; "time"]).
  { destruct (_interp ks cs st) as [vs'|] eqn:E; [|discriminate].
    intros [= _ <-]. apply keeps_length. exact (interp_keeps _ _ _ _ E). }
  destruct (String.eqb st "norm"); [|discriminate].
  destruct p as [|v|a|a|mu sd]; try discriminate.
  destruct (norm_rvs mu sd _ g) as [g1 fills].
  destruct (loc_assign ks _ fills cs) as [vs'|] eqn:E; [|discriminate].
  intros [= _ <-]. exact (loc_assign_length _ _ _ _ _ E).
Qed.

(** With distinct labels in the index, a fill leaves every observed
    cell as it was. *)
Lemma fill_cells_keeps (fv : option string) (ks : list (option Z)) (p : Param)
      (st : string) (cs : list cell) (g g' : RandomState) (vs : list cell) :
  NoDup ks -> length ks = length cs ->
  fill_cells fv ks p st cs g = (g', Ok (Some vs)) -> keeps cs vs.
Proof.
  intros Hnd Hlen. unfold fill_cells.
  destruct (is_in st ["mean"; "median"]).
  { destruct p as [|[v|]|a|a|mu sd]; try discriminate; intros [= _ <-];
      [apply fillna_keeps | apply keeps_refl]. }
  destruct (String.eqb st "mode").
  { destruct (_mode_output cs p fv) as [vs'|] eqn:E; [|discriminate].
    intros [= _ <-]. exact (mode_output_keeps _ _ _ _ E). }
  destruct (String.eqb st "random").
  { destruct p as [|v|a|a|mu sd]; try discriminate;
      (destruct (choice a _ g) as [g1 [fills|e]] eqn:Ec; [|discriminate];
       apply choice_length in Ec; rewrite null_labels_length in Ec;
       rewrite (loc_assign_unique ks fills cs Hnd Hlen Ec);
       intros [= _ <-]; apply fill_with_keeps). }
  destruct (is_in st ["linear"; "time"]).
  { destruct (_interp ks cs st) as [vs'|] eqn:E; [|discriminate].
    intros [= _ <-]. exact (interp_keeps _ _ _ _ E). }
  destruct (String.eqb st "norm"); [|discriminate].
  destruct p as [|v|a|a|mu sd]; try discriminate.
  destruct (norm_rvs mu sd _ g) as [g1 fills] eqn:En.
  apply norm_rvs_length in En. rewrite null_labels_length in En.
  rewrite (loc_assign_unique ks fills cs Hnd Hlen En).
  intros [= _ <-]. apply fill_with_keeps.
Qed.

(** *** Sorting permutes the rows *)

Lemma insert_pos_perm (keys : list (option Z)) (i : nat) (ps : list nat) :
  Permutation (insert_pos keys i ps) (i :: ps).
Proof.
  induction ps as [|j ps IH]; simpl; [apply Permutation_refl|].
  destruct (key_leb _ _); [|apply Permutation_refl].
  eapply Permutation_trans; [apply perm_skip; exact IH | apply perm_swap].
Qed.

Lemma argsort_perm (keys : list (option Z)) :
  Permutation (argsort keys) (seq 0 (length keys)).
Proof.
  unfold argsort.
  assert (forall l acc,
             Permutation (fold_left (fun acc i => insert_pos keys i acc) l acc)
                         (acc ++ l)) as H.
  { induction l as [|i l IH]; intros acc; simpl.
    - rewrite app_nil_r. apply Permutation_refl.
    - eapply Permutation_trans; [apply IH|].
      eapply Permutation_trans;
        [apply Permutation_app_tail; apply insert_pos_perm|].
      simpl. apply Permutation_middle. }
  exact (H (seq 0 (length keys)) []).
Qed.


Lemma take_length (A : Type) (d : A) (perm : list nat) (l : list A) :
  length (take d perm l) = length perm.
Proof. unfold take. apply length_map. Qed.



Lemma sort_index_keys (X : DataFrame) :
  index_keys (index (sort_index X))
  = take None (argsort (index_keys (index X))) (index_keys (index X)).
Proof.
  unfold sort_index. cbn [index]. destruct (index X) as [l|l]; simpl; [|reflexivity].
  unfold take. rewrite !map_map.
  apply map_ext_in. intros i Hi.
  apply (Permutation_in _ (argsort_perm (map Some l))) in Hi.
  apply in_seq in Hi. rewrite length_map in Hi.
  rewrite (nth_indep _ None (Some 0%Z)) by (rewrite length_map; lia).
  symmetry. apply (map_nth Some).
Qed.

Lemma sort_index_names (X : DataFrame) : col_names (sort_index X) = col_names X.
Proof.
  unfold col_names, sort_index. cbn [columns]. rewrite map_map. reflexivity.
Qed.


Lemma sort_index_shaped (X : DataFrame) : shaped X -> shaped (sort_index X).
Proof.
  intros [Hnd Hlen]. split.
  - rewrite sort_index_names. exact Hnd.
  - rewrite sort_index_keys, take_length. unfold sort_index. cbn [columns].
    apply Forall_forall. intros s Hs. apply in_map_iff in Hs.
    destruct Hs as [s0 [<- _]]. cbn [values]. apply take_length.
Qed.






(** *** Setting a column as the index *)

Lemma set_index_names (X X' : DataFrame) (c : string) :
  set_index X c = Some X' ->
  col_names X' = filter (fun k => negb (String.eqb k c)) (col_names X).
Proof.
  unfold set_index. destruct (get_col X c) as [s0|]; [|discriminate].
  intros [= <-]. unfold col_names. cbn [columns].
  induction (columns X) as [|s l IH]; simpl; [reflexivity|].
  destruct (String.eqb (name s) c); simpl; rewrite IH; reflexivity.
Qed.

Lemma NoDup_filter (A : Type) (f : A -> bool) (l : list A) :
  NoDup l -> NoDup (filter f l).
Proof.
  induction 1 as [|x l Hx _ IH]; simpl; [constructor|].
  destruct (f x); [|exact IH].
  constructor; [|exact IH]. intros Hin. apply filter_In in Hin. tauto.
Qed.

Lemma set_index_shaped (X X' : DataFrame) (c : string) :
  shaped X -> set_index X c = Some X' -> shaped X' /\ nrows X' = nrows X.
Proof.
  intros [Hnd Hlen] Hs. pose proof (set_index_names _ _ _ Hs) as Hn.
  unfold set_index in Hs. destruct (get_col X c) as [s|] eqn:Hg; [|discriminate].
  injection Hs as <-. destruct (get_col_some _ _ _ Hg) as [Hin _].
  rewrite Forall_forall in Hlen.
  assert (length (map stamp_of (values s)) = length (index_keys (index X))) as Hl
      by (rewrite length_map; apply Hlen; exact Hin).
  split; [split|].
  - rewrite Hn. apply NoDup_filter. exact Hnd.
  - cbn [index columns index_keys]. rewrite Hl.
    apply Forall_forall. intros s' Hs'. apply filter_In in Hs'. apply Hlen. tauto.
  - rewrite !nrows_keys. exact Hl.
Qed.

(** *** The two halves of transform *)

(** [transform] on a fitted imputer: the validator, then the loop. *)
Lemma transform_fitted (self : TimeSeriesImputer) (X : DataFrame) (g : RandomState)
      (stats : dict ColumnStatistics) :
  statistics_ self = Some stats ->
  check_missingness X = true ->
  transform self X g
  = match _transform_strategy_validator (mkHeap self X None g) with
    | (h1, Err e) => (h1, Err e)
    | (h1, Ok _) =>
        match statistics_ (imputer h1) with
        | None => (h1, Err AttributeError)
        | Some stats' =>
            match for_each stats' fill_column h1 with
            | (h2, Ok _) => (h2, Ok (local h2))
            | (h2, Err e) => (h2, Err e)
            end
        end
    end.
Proof.
  intros Hs Hc. unfold transform, transform_body. rewrite Hc.
  unfold bind at 1. unfold get_self at 1. cbn [imputer]. rewrite Hs.
  unfold bind at 1.
  destruct (_transform_strategy_validator (mkHeap self X None g)) as [h1 [[]|e]];
    [|reflexivity].
  unfold bind at 1. unfold get_self at 1.
  destruct (statistics_ (imputer h1)) as [stats'|]; [|reflexivity].
  unfold bind at 1.
  destruct (for_each stats' fill_column h1) as [h2 [[]|e]]; reflexivity.
Qed.

(** How the validator may end: with an error and nothing changed; with
    the caller's frame sorted in place; or with a time-typed column [c]
    popped from the strategy assignment and [X] naming a new frame,
    indexed by [c] and sorted. *)
Inductive validated (self : TimeSeriesImputer) (X : DataFrame) (g : RandomState)
  : Heap * result unit -> Prop :=
| validated_error e :
    In e [AttributeError; ColumnMismatch; IndexError; InvalidIndexColumn] ->
    validated self X g (mkHeap self X None g, Err e)
| validated_sorted strats :
    _strats self = Some strats ->
    (forall c, In c (keys strats) -> In c (col_names X)) ->
    is_DatetimeIndex (index X) = true ->
    validated self X g (mkHeap self (sort_index X) None g, Ok tt)
| validated_promoted strats c X' :
    _strats self = Some strats ->
    (forall c, In c (keys strats) -> In c (col_names X)) ->
    is_DatetimeIndex (index X) = false ->
    In c (map name (select_datetime X)) ->
    set_index X c = Some X' ->
    validated self X g
              (mkHeap (with_strats self (dict_pop strats c)) X (Some (sort_index X')) g,
               Ok tt).

Lemma validator_unfold (self : TimeSeriesImputer) (X : DataFrame) (g : RandomState) :
  _transform_strategy_validator (mkHeap self X None g)
  = match _strats self with
    | None => (mkHeap self X None g, Err AttributeError)
    | Some strats =>
        match difference (keys strats) (col_names X) with
        | _ :: _ => (mkHeap self X None g, Err ColumnMismatch)
        | [] =>
            (when (negb (is_DatetimeIndex (index X)))
                  (match select_datetime X with
                   | [] => raise IndexError
                   | first :: _ =>
                       if Nat.eqb (length (select_datetime X)) 1
                       then pop_strat (name first) ;;; reindex (name first)
                       else
                         match index_column self with
                         | None => pop_strat (name first) ;;; reindex (name first)
                         | Some ic =>
                             if mem ic (map name (select_datetime X))
                             then pop_strat ic ;;; reindex ic
                             else raise InvalidIndexColumn
                         end
                   end) ;;;
             X1 <- get_X ;; put_X (sort_index X1)) (mkHeap self X None g)
        end
    end.
Proof.
  unfold _transform_strategy_validator at 1. run.
  destruct (_strats self) as [strats|]; [|reflexivity].
  destruct (difference (keys strats) (col_names X)); reflexivity.
Qed.

Lemma validator_promote (self : TimeSeriesImputer) (X : DataFrame) (g : RandomState)
      (strats : dict string) (c : string) :
  _strats self = Some strats ->
  (forall c, In c (keys strats) -> In c (col_names X)) ->
  is_DatetimeIndex (index X) = false ->
  In c (map name (select_datetime X)) ->
  validated self X g
            (((pop_strat c ;;; reindex c) ;;; X1 <- get_X ;; put_X (sort_index X1))
               (mkHeap self X None g)).
Proof.
  intros Hst Hall Hix Hc.
  destruct (select_datetime_get_col X c Hc) as [s Hs].
  assert (set_index X c
          = Some (mkFrame (DatetimeIndex (map stamp_of (values s)))
                          (filter (fun s' => negb (String.eqb (name s') c)) (columns X))))
    as Hsi by (unfold set_index; rewrite Hs; reflexivity).
  unfold bind at 1. rewrite (promote_run self X _ g strats c Hst Hsi).
  run. eapply validated_promoted; eassumption.
Qed.

Lemma validator_cases (self : TimeSeriesImputer) (X : DataFrame) (g : RandomState) :
  validated self X g (_transform_strategy_validator (mkHeap self X None g)).
Proof.
  rewrite validator_unfold.
  destruct (_strats self) as [strats|] eqn:Hst;
    [|apply validated_error; simpl; auto].
  destruct (difference (keys strats) (col_names X)) as [|d ds] eqn:Hd;
    [|apply validated_error; simpl; auto].
  pose proof (proj1 (difference_nil _ _) Hd) as Hall. clear Hd.
  destruct (is_DatetimeIndex (index X)) eqn:Hix; unfold when; cbn [negb].
  - run. eapply validated_sorted; eassumption.
  - destruct (select_datetime X) as [|first rest] eqn:Hts.
    + run. apply validated_error. simpl. auto.
    + assert (In (name first) (map name (select_datetime X))) as Hfirst
          by (rewrite Hts; left; reflexivity).
      destruct (Nat.eqb (length (first :: rest)) 1).
      * apply (validator_promote self X g strats); assumption.
      * destruct (index_column self) as [ic|].
        -- destruct (mem ic (map name (first :: rest))) eqn:Hmem.
           ++ apply (validator_promote self X g strats); try assumption.
              rewrite Hts. apply mem_In. exact Hmem.
           ++ run. apply validated_error. simpl. auto.
        -- apply (validator_promote self X g strats); assumption.
Qed.

(** *** C3: what transform returns *)

Definition same_length (cs vs : list cell) : Prop := length vs = length cs.

(** [Y] is [X0] with some missing cells filled: same index, same
    columns in the same order, and, when the labels of the index are
    pairwise distinct, every observed cell of [X0] at its place in [Y]. *)
Definition filled_from (X0 Y : DataFrame) : Prop :=
  index Y = index X0
  /\ related same_length X0 Y
  /\ (NoDup (index_keys (index X0)) -> related keeps X0 Y).

Lemma loop_filled_from (stats : dict ColumnStatistics) (h h' : Heap) (r : result unit) :
  shaped (local h) ->
  for_each stats fill_column h = (h', r) ->
  filled_from (local h) (local h') /\ same_objects h h'.
Proof.
  intros Hs Hl.
  destruct (for_each_related same_length (fun _ => True)
              (fun cs => eq_refl)
              (fun a b c (H1 : same_length a b) (H2 : same_length b c) =>
                 eq_trans H2 H1)
              (fun cs vs H => H)
              (fun fv ks p st cs g g' vs _ _ H => fill_cells_length fv ks p st cs g g' vs H)
              stats h h' r Hs I Hl) as [Hr Ho].
  split; [|exact Ho]. split; [exact (proj1 Hr)|]. split; [exact Hr|].
  intros Hnd.
  exact (proj1 (for_each_related keeps (fun ks => NoDup ks)
                  keeps_refl keeps_trans keeps_length fill_cells_keeps
                  stats h h' r Hs Hnd Hl)).
Qed.

Lemma transform_ok_inv (self : TimeSeriesImputer) (X : DataFrame) (g : RandomState)
      (h : Heap) (Y : DataFrame) :
  transform self X g = (h, Ok Y) ->
  check_missingness X = true
  /\ exists stats h1,
      statistics_ self = Some stats
      /\ _transform_strategy_validator (mkHeap self X None g) = (h1, Ok tt)
      /\ statistics_ (imputer h1) = Some stats
      /\ for_each stats fill_column h1 = (h, Ok tt)
      /\ Y = local h.
Proof.
  intros H.
  destruct (check_missingness X) eqn:Hc;
    [|unfold transform in H; rewrite Hc in H; discriminate H].
  split; [reflexivity|].
  destruct (statistics_ self) as [stats|] eqn:Hs.
  - rewrite (transform_fitted self X g stats Hs Hc) in H.
    pose proof (validator_cases self X g) as Hv.
    destruct (_transform_strategy_validator (mkHeap self X None g)) as [h1 [[]|e]];
      [|discriminate H].
    assert (statistics_ (imputer h1) = Some stats) as Hs1
        by (inversion Hv; subst; cbn [imputer with_strats statistics_]; assumption).
    rewrite Hs1 in H.
    destruct (for_each stats fill_column h1) as [h2 [[]|e]] eqn:Hl; [|discriminate H].
    injection H as <- <-. exists stats, h1. auto.
  - rewrite (transform_keeps_statistics self X g Hs), Hc in H. discriminate H.
Qed.


Module MeanScenario.

Import Scenario.

(** The imputer after [fit] with strategy "mean" on the frame that
    already has the days as its index. *)
Definition fitted : TimeSeriesImputer := fst (fit (imputer_of "mean") indexed).

(** What [transform] makes of the frame with the [date] column. *)
Definition filled : DataFrame :=
  mkFrame (DatetimeIndex [Some 1; Some 2; Some 3; Some 4; Some 5]%Z)
          [ mkSeries "value" Numeric [num 1; num 3; num 3; num 3; num 5] ].

End MeanScenario.





(** *** C2 and C4: the promoted column in the loop *)

(** A key of the statistics that is not a column of [X] ends the loop
    with an error. *)
Lemma loop_absent_column (stats : dict ColumnStatistics) (h h' : Heap)
      (r : result unit) (c : string) :
  shaped (local h) ->
  In c (keys stats) ->
  ~ In c (col_names (local h)) ->
  for_each stats fill_column h = (h', r) ->
  exists e, r = Err e.
Proof.
  revert h. induction stats as [|[k st] stats IH]; intros h Hs Hin Hout;
    cbn [for_each keys map fst In] in *; [contradiction|].
  unfold bind. destruct (fill_column (k, st) h) as [h1 [[]|e]] eqn:Hf.
  - destruct (loop_filled_from [(k, st)] h h1 (Ok tt) Hs) as [[_ [Hr _]] _].
    { cbn [for_each]. unfold bind. rewrite Hf. reflexivity. }
    pose proof (related_names _ _ _ Hr) as Hn.
    destruct Hin as [<-|Hin].
    + exfalso. destruct h as [self P m g]. destruct st as [p s].
      rewrite fill_column_eq in Hf.
      destruct (get_col (local (mkHeap self P m g)) k) as [col|] eqn:Hg;
        [|discriminate Hf].
      apply Hout. destruct (get_col_some _ _ _ Hg) as [Hc <-].
      unfold col_names. apply in_map. exact Hc.
    + apply IH; try assumption.
      * eapply related_shaped; [| exact Hs | exact Hr]. exact (fun cs vs H => H).
      * rewrite Hn. exact Hout.
  - intros [= _ <-]. eauto.
Qed.

Lemma set_index_drops (X X' : DataFrame) (c : string) :
  set_index X c = Some X' -> ~ In c (col_names (sort_index X')).
Proof.
  intros Hs. rewrite sort_index_names, (set_index_names _ _ _ Hs).
  intros Hin. apply filter_In in Hin. destruct Hin as [_ Hc].
  rewrite String.eqb_refl in Hc. discriminate Hc.
Qed.

(** C2.  When the validator has promoted column [c], the column is out
    of [self._strats] but the loop of [transform] goes through
    [self.statistics_]: if [c] has statistics there, the loop looks [c]
    up in a frame that no longer has it and [transform] fails, with [c]
    popped from the strategy assignment and the statistics unchanged. *)
Theorem promoted_column_still_visited
        (self : TimeSeriesImputer) (X : DataFrame) (g : RandomState)
        (strats : dict string) (stats : dict ColumnStatistics) (c : string) :
  shaped X ->
  check_missingness X = true ->
  statistics_ self = Some stats ->
  promotes self X g strats c ->
  In c (keys stats) ->
  exists h e,
    transform self X g = (h, Err e)
    /\ _strats (imputer h) = Some (dict_pop strats c)
    /\ statistics_ (imputer h) = Some stats.
Proof.
  intros Hsh Hc Hs [X' [Hsi Hv]] Hin.
  rewrite (transform_fitted self X g stats Hs Hc), Hv.
  cbn [imputer with_strats statistics_]. rewrite Hs.
  destruct (set_index_shaped X X' c Hsh Hsi) as [Hsh' _].
  set (h1 := mkHeap (with_strats self (dict_pop strats c)) X (Some (sort_index X')) g).
  destruct (for_each stats fill_column h1) as [h2 r] eqn:Hl.
  destruct (loop_absent_column stats h1 h2 r c (sort_index_shaped X' Hsh') Hin
                               (set_index_drops X X' c Hsi) Hl) as [e ->].
  destruct (loop_filled_from stats h1 h2 _ (sort_index_shaped X' Hsh') Hl)
    as [_ [Hi _]].
  cbn [imputer] in Hi.
  exists h2, e. rewrite Hi. cbn [with_strats _strats statistics_]. auto.
Qed.

Module LinearScenario.

Import Scenario.

(** The imputer after [fit] with strategy "linear" on the frame with
    the [date] column. *)
Definition fitted : TimeSeriesImputer := fst (fit (imputer_of "linear") dated).

(** The frame [X] names when the loop of [transform] starts. *)
Definition reindexed : DataFrame :=
  mkFrame (DatetimeIndex [Some 1; Some 2; Some 3; Some 4; Some 5]%Z)
          [ mkSeries "value" Numeric [num 1; None; num 3; None; num 5] ].

End LinearScenario.

Lemma promoted_column_still_visited_witness :
  exists h e,
    transform LinearScenario.fitted Scenario.dated Scenario.g0 = (h, Err e)
    /\ _strats (imputer h) = Some (dict_pop [("date", "linear"); ("value", "linear")] "date")
    /\ statistics_ (imputer h)
       = Some [("date", mkStat PNothing "linear"); ("value", mkStat PNothing "linear")].
Proof.
  apply (promoted_column_still_visited LinearScenario.fitted Scenario.dated Scenario.g0).
  - split.
    + simpl. repeat constructor; simpl; intuition discriminate.
    + repeat constructor.
  - reflexivity.
  - reflexivity.
  - exists LinearScenario.reindexed. split; vm_compute; reflexivity.
  - simpl. left. reflexivity.
Defined.

(** C4.  In the scenario of the specification, [fit] with "linear"
    gives the [date] column statistics as well, and [transform] ends
    with the KeyError of the lookup of [date]; the caller's frame is
    untouched and no frame is returned. *)
Theorem linear_scenario_raises :
  statistics_ LinearScenario.fitted
  = Some [("date", mkStat PNothing "linear"); ("value", mkStat PNothing "linear")]
  /\ snd (transform LinearScenario.fitted Scenario.dated Scenario.g0)
     = Err (KeyError "date")
  /\ fit_transform (Scenario.imputer_of "linear") Scenario.dated Scenario.g0
     = Err (KeyError "date").
Proof. repeat split; vm_compute; reflexivity. Qed.

(** The same values over a DatetimeIndex are interpolated as the
    scenario says. *)
Lemma linear_scenario_indexed :
  fit_transform (Scenario.imputer_of "linear") Scenario.indexed Scenario.g0
  = Ok (mkFrame (DatetimeIndex [Some 1; Some 2; Some 3; Some 4; Some 5]%Z)
                [ mkSeries "value" Numeric
                           [Scenario.num 1; Scenario.num 2; Scenario.num 3;
                            Scenario.num 4; Scenario.num 5] ]).
Proof. vm_compute. reflexivity. Qed.

(** *** C5: what a failed call leaves behind *)

(** The checks of [transform]: the precondition of the decorator,
    [check_is_fitted] and the validator. *)
Definition validation_fails (self : TimeSeriesImputer) (X : DataFrame) (g : RandomState)
  : Prop :=
  check_missingness X = false
  \/ statistics_ self = None
  \/ is_err (snd (_transform_strategy_validator (mkHeap self X None g))) = true.

(** C5.  A failed [fit] leaves the strategy assignment and the
    statistics as they were.  A [transform] that fails in its checks
    returns nothing and leaves the imputer, the caller's frame and the
    generator as they were. *)
Theorem failed_checks_change_nothing
        (self : TimeSeriesImputer) (X : DataFrame) (g : RandomState) :
  (forall self' e,
      fit self X = (self', Err e) ->
      strategy self' = strategy self
      /\ _strats self' = _strats self
      /\ statistics_ self' = statistics_ self)
  /\ (validation_fails self X g ->
      fst (transform self X g) = mkHeap self X None g
      /\ is_err (snd (transform self X g)) = true).
Proof.
  split.
  - intros self' e Hf. destruct (fit_failed_keeps _ _ _ _ Hf) as [H1 H2].
    split; [|split; assumption].
    revert Hf. unfold fit, fit_body, _fit_strategy_validator.
    destruct (check_missingness X); [|intros [= <- _]; reflexivity].
    destruct (negb (is_DatetimeIndex (index X)) && Nat.eqb (length (select_datetime X)) 0);
      [intros [= <- _]; reflexivity|].
    destruct (_nan_col_dropper X) as [X' nc].
    destruct (_check_fit_strat _ _ _ _) as [items|e'].
    + cbn [_strats with_statistics with_strats].
      destruct (fit_columns X items []) as [stats r]. intros [= <- _]. reflexivity.
    + intros [= <- _]. reflexivity.
  - intros Hv.
    destruct (check_missingness X) eqn:Hc;
      [|unfold transform; rewrite Hc; split; reflexivity].
    destruct (statistics_ self) as [stats|] eqn:Hs;
      [|rewrite (transform_keeps_statistics self X g Hs), Hc; split; reflexivity].
    destruct Hv as [Hv|[Hv|Hv]]; [congruence | congruence |].
    rewrite (transform_fitted self X g stats Hs Hc).
    pose proof (validator_cases self X g) as Hcases.
    destruct (_transform_strategy_validator (mkHeap self X None g)) as [h1 [[]|e]];
      [simpl in Hv; discriminate Hv|].
    inversion Hcases; subst. split; reflexivity.
Qed.

Module FailedCalls.

Import Scenario.

(** Columns [value, date] over a default index. *)
Definition dated' : DataFrame :=
  mkFrame (PlainIndex [0; 1; 2]%Z)
          [ mkSeries "value" Numeric [num 1; None; num 5];
            mkSeries "date" Datetime [day 1; day 2; day 3] ].

(** The imputer after [fit] with "mean" on that frame. *)
Definition fitted : TimeSeriesImputer := fst (fit (imputer_of "mean") dated').

(** The imputer after [transform] has failed on the same frame. *)
Definition after_failure : TimeSeriesImputer :=
  imputer (fst (transform fitted dated' g0)).

(** A frame with a DatetimeIndex that is not in order. *)
Definition unordered : DataFrame :=
  mkFrame (DatetimeIndex [Some 3; Some 1; Some 2]%Z)
          [ mkSeries "value" Numeric [None; num 1; num 5] ].

(** That frame, sorted and with the mean in its missing cell. *)
Definition unordered_filled : DataFrame :=
  mkFrame (DatetimeIndex [Some 1; Some 2; Some 3]%Z)
          [ mkSeries "value" Numeric [num 1; num 5; num 3] ].

(** An imputer with a mapping for the column [value], fitted. *)
Definition mapped : TimeSeriesImputer :=
  fst (fit (mkImputer (PerColumn [("value", "mean")]) None None false None None None)
           indexed).

(** A frame without the column [value], with an all-missing column. *)
Definition other : DataFrame :=
  mkFrame (DatetimeIndex [Some 1; Some 2]%Z)
          [ mkSeries "other" Numeric [num 1; num 2];
            mkSeries "empty" Numeric [None; None] ].

End FailedCalls.

Lemma failed_checks_change_nothing_witness :
  (strategy (fst (fit FailedCalls.mapped FailedCalls.other))
   = strategy FailedCalls.mapped
   /\ _strats (fst (fit FailedCalls.mapped FailedCalls.other))
      = _strats FailedCalls.mapped
   /\ statistics_ (fst (fit FailedCalls.mapped FailedCalls.other))
      = statistics_ FailedCalls.mapped)
  /\ (fst (transform FailedCalls.mapped FailedCalls.other Scenario.g0)
      = mkHeap FailedCalls.mapped FailedCalls.other None Scenario.g0
      /\ is_err (snd (transform FailedCalls.mapped FailedCalls.other Scenario.g0)) = true).
Proof.
  split.
  - apply (proj1 (failed_checks_change_nothing FailedCalls.mapped FailedCalls.other
                                               Scenario.g0)
                 _ InvalidStrategyMapping).
    vm_compute. reflexivity.
  - apply (proj2 (failed_checks_change_nothing FailedCalls.mapped FailedCalls.other
                                               Scenario.g0)).
    right. right. vm_compute. reflexivity.
Defined.

(** C5, as stated, fails.  A [transform] that fails in its loop has
    already popped the promoted column from the strategy assignment;
    when [X] is the caller's frame it has sorted it and filled it in
    place; and a [fit] that fails on its mapping has already replaced
    the list of dropped columns. *)
Lemma failed_calls_leave_changes :
  (snd (transform FailedCalls.fitted FailedCalls.dated' Scenario.g0) = Err (KeyError "date")
   /\ _strats FailedCalls.fitted = Some [("value", "mean"); ("date", "mean")]
   /\ _strats FailedCalls.after_failure = Some [("value", "mean")])
  /\ (snd (transform FailedCalls.after_failure FailedCalls.unordered Scenario.g0)
      = Err (KeyError "date")
      /\ passed (fst (transform FailedCalls.after_failure FailedCalls.unordered Scenario.g0))
         = FailedCalls.unordered_filled
      /\ FailedCalls.unordered_filled <> FailedCalls.unordered)
  /\ (snd (fit FailedCalls.mapped FailedCalls.other) = Err InvalidStrategyMapping
      /\ _nc FailedCalls.mapped = Some []
      /\ _nc (fst (fit FailedCalls.mapped FailedCalls.other)) = Some ["empty"]).
Proof.
  split; [|split].
  - repeat split; vm_compute; reflexivity.
  - split; [vm_compute; reflexivity|]. split; [vm_compute; reflexivity|].
    discriminate.
  - repeat split; vm_compute; reflexivity.
Qed.

(** *** C9: the round of a random column *)

(** Every cell of [vs] is the cell of [cs] at its place or satisfies [Q]. *)
Definition old_or (Q : cell -> Prop) (cs vs : list cell) : Prop :=
  Forall2 (fun old new => new = old \/ Q new) cs vs.

Lemma old_or_refl (Q : cell -> Prop) (cs : list cell) : old_or Q cs cs.
Proof. induction cs; constructor; [left; reflexivity | assumption]. Qed.

Lemma old_or_trans (Q : cell -> Prop) (a b c : list cell) :
  old_or Q a b -> old_or Q b c -> old_or Q a c.
Proof.
  intros H. revert c. induction H as [|x y a b Hxy _ IH]; intros c Hc; inversion Hc; subst.
  - constructor.
  - constructor; [|apply IH; assumption].
    match goal with H : _ = y \/ _ |- _ => destruct H as [E|E] end.
    + rewrite E. exact Hxy.
    + right. exact E.
Qed.

Lemma upd_old_or (Q : cell -> Prop) (p : nat) (v : cell) (cs : list cell) :
  Q v -> old_or Q cs (upd p v cs).
Proof.
  intros Hv. revert p. induction cs as [|c cs IH]; intros p; simpl; [constructor|].
  destruct p; constructor.
  - right. exact Hv.
  - apply old_or_refl.
  - left. reflexivity.
  - apply IH.
Qed.

Lemma loc_assign_old_or (Q : cell -> Prop) (ks imp_ind : list (option Z))
      (fills cs vs : list cell) :
  Forall Q fills -> loc_assign ks imp_ind fills cs = Ok vs -> old_or Q cs vs.
Proof.
  intros HQ. unfold loc_assign.
  assert (forall (l : list (nat * cell)) acc,
             Forall (fun pv => Q (snd pv)) l ->
             old_or Q acc (fold_left (fun acc pv => upd (fst pv) (snd pv) acc) l acc))
    as H1.
  { induction l as [|pv l IH]; intros acc Hl; simpl; [apply old_or_refl|].
    inversion Hl; subst.
    eapply old_or_trans; [apply upd_old_or; eassumption | apply IH; assumption]. }
  assert (forall f (l : list nat) (acc : list cell),
             Q f -> old_or Q acc (fold_left (fun acc p => upd p f acc) l acc)) as H2.
  { intros f. induction l as [|q l IH]; intros acc Hf; simpl; [apply old_or_refl|].
    eapply old_or_trans; [apply upd_old_or; eassumption | apply IH; assumption]. }
  destruct (Nat.eqb _ _).
  - intros [= <-]. apply H1. apply Forall_forall. intros [p v] Hin.
    apply in_combine_r in Hin. rewrite Forall_forall in HQ. apply HQ. exact Hin.
  - destruct fills as [|f [|f' fills]]; try discriminate.
    intros [= <-]. apply H2. inversion HQ; assumption.
Qed.

(** The cells [choice] draws: the k-th is the cell of [a] at the
    position the k-th uniform draw picks. *)
Definition draws (a : list value) (d : value) (n : nat) (g : RandomState) : list cell :=
  map (fun k => Some (nth (uniform g (taken g + k) mod length a) a d)) (seq 0 n).

Lemma draws_members (a : list value) (d : value) (n : nat) (g : RandomState) :
  a <> [] -> Forall (fun c => exists v, c = Some v /\ In v a) (draws a d n g).
Proof.
  intros Ha. apply Forall_forall. intros c Hc. unfold draws in Hc.
  apply in_map_iff in Hc. destruct Hc as [k [<- _]].
  eexists. split; [reflexivity|]. apply nth_In.
  apply Nat.mod_upper_bound. destruct a; [contradiction | simpl; lia].
Qed.

Lemma choice_cons (v : value) (a : list value) (n : nat) (g : RandomState) :
  choice (v :: a) n g = (advance g n, Ok (draws (v :: a) v n g)).
Proof. reflexivity. Qed.

Lemma draws_indep (a : list value) (d d' : value) (n : nat) (g : RandomState) :
  a <> [] -> draws a d n g = draws a d' n g.
Proof.
  intros Ha. unfold draws. apply map_ext_in. intros k _. f_equal. apply nth_indep.
  apply Nat.mod_upper_bound. destruct a; [contradiction | simpl; lia].
Qed.

Lemma choice_draws (a : list value) (n : nat) (g g' : RandomState) (fills : list cell) :
  choice a n g = (g', Ok fills) ->
  Forall (fun c => exists v, c = Some v /\ In v a) fills
  /\ (forall d, a <> [] -> fills = draws a d n g /\ g' = advance g n).
Proof.
  destruct a as [|v a].
  - unfold choice. destruct (Nat.eqb n 0); [|discriminate]. intros [= _ <-].
    split; [constructor|]. intros d H. contradiction.
  - rewrite choice_cons. intros H.
    assert (g' = advance g n /\ fills = draws (v :: a) v n g) as [-> ->]
        by (split; congruence).
    split.
    + apply (draws_members (v :: a) v n g). discriminate.
    + intros d Ha. split; [|reflexivity]. apply draws_indep. exact Ha.
Qed.

Lemma get_col_set_same (X : DataFrame) (c : string) (s : Series) (vs : list cell) :
  get_col X c = Some s ->
  get_col (set_col_values X c vs) c = Some (mkSeries (name s) (dty s) vs).
Proof.
  unfold get_col, set_col_values. cbn [columns].
  induction (columns X) as [|x l IH]; simpl; [discriminate|].
  destruct (String.eqb (name x) c) eqn:E; simpl; rewrite E.
  - intros [= <-]. reflexivity.
  - exact IH.
Qed.

(** C9.  The round of the loop for a column [c] whose statistics are
    the strategy "random" and the stored array [arr].  When it ends
    well, each cell of the column is the cell of before or a member of
    [arr], so every value written at a missing position is a member of
    [arr].  When moreover the labels of the index are pairwise distinct
    and [arr] is not empty, the round ends well, it takes one draw
    from the generator for each missing position, in row order, each
    draw picking a position of the whole of [arr], and it writes the
    values drawn at the missing positions and nowhere else. *)
Theorem random_round_draws_from_stored
        (self : TimeSeriesImputer) (P : DataFrame) (m : option DataFrame)
        (g : RandomState) (c : string) (arr : list value) (s : Series)
        (h' : Heap) (r : result unit) :
  get_col (local (mkHeap self P m g)) c = Some s ->
  fill_column (c, mkStat (PArray arr) "random") (mkHeap self P m g) = (h', r) ->
  (r = Ok tt ->
   exists s',
     get_col (local h') c = Some s'
     /\ old_or (fun new => exists v, new = Some v /\ In v arr) (values s) (values s')
     /\ (forall i v, nth i (values s) None = None ->
                     nth i (values s') None = Some v -> In v arr))
  /\ (NoDup (index_keys (index (local (mkHeap self P m g)))) ->
      length (index_keys (index (local (mkHeap self P m g)))) = length (values s) ->
      forall d, arr <> [] ->
      r = Ok tt
      /\ random h' = advance g (n_missing (values s))
      /\ get_col (local h') c
         = Some (mkSeries (name s) (dty s)
                          (fill_with (draws arr d (n_missing (values s)) g) (values s)))).
Proof.
  intros Hg. rewrite fill_column_eq, Hg. unfold fill_cells. cbn [is_in mem existsb].
  change (String.eqb "random" "mean" || (String.eqb "random" "median" || false))
    with false.
  change (String.eqb "random" "mode") with false.
  change (String.eqb "random" "random") with true. cbv iota.
  set (X := local (mkHeap self P m g)) in *.
  set (ks := index_keys (index X)).
  destruct (choice arr (length (null_labels ks (values s))) g) as [g1 [fills|e]] eqn:Hc.
  - destruct (choice_draws _ _ _ _ _ Hc) as [Hmem Hdraw].
    rewrite null_labels_length in Hdraw.
    intros H. split.
    + destruct (loc_assign ks (null_labels ks (values s)) fills (values s))
        as [vs|e] eqn:Hl; cbn [result_map] in H;
        [|intros Hok; rewrite Hok in H; discriminate H].
      intros _. assert (h' = written self P m g1 (set_col_values X c vs)) as ->
          by congruence.
      exists (mkSeries (name s) (dty s) vs).
      rewrite written_local.
      split; [apply get_col_set_same; exact Hg|].
      pose proof (loc_assign_old_or _ _ _ _ _ _ Hmem Hl) as Hold.
      split; [exact Hold|]. cbn [values].
      clear - Hold. intros i. revert i.
      induction Hold as [|x y a b Hxy _ IH]; intros i v Hi Hv.
      * destruct i; discriminate Hv.
      * destruct i as [|i]; simpl in *.
        -- destruct Hxy as [E|[w [E Hw]]]; [congruence|]. congruence.
        -- eapply IH; eassumption.
    + intros Hnd Hlen d Harr.
      destruct (Hdraw d Harr) as [Ef Eg]. rewrite Ef, Eg in H.
      rewrite (loc_assign_unique ks _ (values s) Hnd Hlen) in H
        by (unfold draws; rewrite length_map, length_seq; reflexivity).
      cbn [result_map] in H.
      assert (h' = written self P m (advance g (n_missing (values s)))
                           (set_col_values X c
                              (fill_with (draws arr d (n_missing (values s)) g)
                                         (values s)))
              /\ r = Ok tt) as [-> ->] by (split; congruence).
      rewrite written_local.
      split; [reflexivity|]. split; [destruct m; reflexivity|].
      apply get_col_set_same. exact Hg.
  - intros H. assert (r = Err e) as -> by congruence.
    split; [discriminate|].
    intros _ _ d Harr. exfalso.
    unfold choice in Hc. destruct arr; [contradiction | discriminate Hc].
Qed.

Module RandomScenario.

Import Scenario.

(** The observed values of the column [value]. *)
Definition stored : list value :=
  [VNum (inject_Z 1); VNum (inject_Z 3); VNum (inject_Z 5)].

Definition column : Series :=
  mkSeries "value" Numeric [num 1; None; num 3; None; num 5].

(** The heap at the start of the round. *)
Definition start : Heap := mkHeap (imputer_of "random") indexed None g0.

Definition round : Heap * result unit :=
  fill_column ("value", mkStat (PArray stored) "random") start.

End RandomScenario.

Lemma random_round_draws_from_stored_witness :
  snd RandomScenario.round = Ok tt
  /\ random (fst RandomScenario.round) = advance Scenario.g0 2
  /\ get_col (local (fst RandomScenario.round)) "value"
     = Some (mkSeries "value" Numeric
                      (fill_with (draws RandomScenario.stored (VNum 0) 2 Scenario.g0)
                                 (values RandomScenario.column))).
Proof.
  refine (proj2 (random_round_draws_from_stored
                   (Scenario.imputer_of "random") Scenario.indexed None Scenario.g0
                   "value" RandomScenario.stored RandomScenario.column
                   (fst RandomScenario.round) (snd RandomScenario.round) _ _)
                _ _ (VNum 0) _).
  - reflexivity.
  - apply surjective_pairing.
  - simpl. repeat constructor; simpl; intuition discriminate.
  - reflexivity.
  - discriminate.
Defined.

(** *** What fit stores *)

Lemma dict_set_new (V : Type) (d : dict V) (k : string) (v : V) :
  ~ In k (keys d) -> dict_set d k v = d ++ [(k, v)].
Proof.
  induction d as [|[k' v'] d IH]; simpl; intros H; [reflexivity|].
  destruct (String.eqb k' k) eqn:E.
  - apply String.eqb_eq in E. exfalso. apply H. left. exact E.
  - rewrite IH; [reflexivity|]. intros Hin. apply H. right. exact Hin.
Qed.



Lemma check_fit_strat_keys (st : StrategyRequest) (nc ocols ncols : list string)
      (items : dict string) :
  _check_fit_strat st nc ocols ncols = Ok items -> keys items = ncols.
Proof.
  unfold _check_fit_strat. destruct st as [s|m].
  - destruct (mem s (keys strategies)); [|discriminate]. intros [= <-].
    unfold keys. rewrite map_map. simpl. apply map_id.
  - destruct (forallb _ m); [|discriminate]. intros [= <-].
    unfold keys. rewrite map_map. simpl. apply map_id.
Qed.



(** *** Columns the loop does not touch *)

Lemma get_col_set_other (X : DataFrame) (c c' : string) (vs : list cell) :
  c' <> c -> get_col (set_col_values X c vs) c' = get_col X c'.
Proof.
  intros Hne. unfold get_col, set_col_values. cbn [columns].
  induction (columns X) as [|x l IH]; simpl; [reflexivity|].
  destruct (String.eqb (name x) c) eqn:E; simpl.
  - apply String.eqb_eq in E.
    destruct (String.eqb (name x) c') eqn:E'.
    + apply String.eqb_eq in E'. congruence.
    + exact IH.
  - destruct (String.eqb (name x) c'); [reflexivity | exact IH].
Qed.

Lemma fill_column_untouched (h h' : Heap) (k : string) (st : ColumnStatistics)
      (r : result unit) (c : string) :
  c <> k -> fill_column (k, st) h = (h', r) ->
  get_col (local h') c = get_col (local h) c.
Proof.
  destruct h as [self P m g]. destruct st as [p s]. intros Hne.
  rewrite fill_column_eq.
  destruct (get_col (local (mkHeap self P m g)) k) as [col|]; [|intros [= <- _]; reflexivity].
  destruct (fill_cells _ _ p s (values col) g) as [g' [[vs|]|e]]; intros [= <- _].
  - rewrite written_local. apply get_col_set_other. exact Hne.
  - destruct m; reflexivity.
  - destruct m; reflexivity.
Qed.

Lemma loop_untouched (stats : dict ColumnStatistics) (h h' : Heap) (r : result unit)
      (c : string) :
  ~ In c (keys stats) ->
  for_each stats fill_column h = (h', r) ->
  get_col (local h') c = get_col (local h) c.
Proof.
  revert h. induction stats as [|[k st] stats IH]; intros h Hout; cbn [for_each].
  - intros [= <- _]. reflexivity.
  - unfold bind. destruct (fill_column (k, st) h) as [h1 [[]|e]] eqn:Hf.
    + intros Hl. rewrite (IH h1); [| |exact Hl].
      * apply (fill_column_untouched h h1 k st (Ok tt)); [|exact Hf].
        intros ->. apply Hout. left. reflexivity.
      * intros Hin. apply Hout. right. exact Hin.
    + intros [= <- _].
      apply (fill_column_untouched h h1 k st (Err e)); [|exact Hf].
      intros ->. apply Hout. left. reflexivity.
Qed.

(** *** A loop whose rounds all go through *)




(** *** What the learning functions make of a column *)






Lemma observed_perm (cs cs' : list cell) :
  Permutation cs cs' -> Permutation (observed cs) (observed cs').
Proof.
  induction 1 as [| [v|] l l' _ IH | [v|] [w|] l | l l' l'' _ IH1 _ IH2]; simpl;
    try (constructor; assumption); try apply Permutation_refl; try assumption.
  eapply Permutation_trans; eassumption.
Qed.








(** *** Interpolation fills all but the leading gap *)




(** *** The rounds of the learned strategies *)



Lemma fill_cells_scalar (fv : option string) (ks : list (option Z)) (o : cell)
      (st : string) (cs : list cell) (g : RandomState) :
  is_in st ["mean"; "median"] = true ->
  fill_cells fv ks (PScalar o) st cs g
  = (g, Ok (Some (match o with Some v => fillna v cs | None => cs end))).
Proof. intros H. unfold fill_cells. rewrite H. destruct o; reflexivity. Qed.








(** *** C1: fit, then transform *)






Module LateStart.

(** A column whose first value is missing, over a DatetimeIndex. *)
Definition frame : DataFrame :=
  mkFrame (DatetimeIndex [Some 1; Some 2; Some 3]%Z)
          [ mkSeries "value" Numeric [None; Scenario.num 1; Scenario.num 3] ].

End LateStart.


(** ** Further properties of fit and transform *)

(** *** What a round and the loop never change *)

Lemma fill_column_facts (h h' : Heap) (kv : string * ColumnStatistics)
      (r : result unit) :
  fill_column kv h = (h', r) ->
  imputer h' = imputer h
  /\ index (local h') = index (local h)
  /\ col_names (local h') = col_names (local h)
  /\ same_objects h h'.
Proof.
  destruct h as [self P m g]. destruct kv as [c [p st]]. rewrite fill_column_eq.
  assert (forall g', imputer (mkHeap self P m g') = self
                     /\ index (local (mkHeap self P m g')) = index (local (mkHeap self P m g))
                     /\ col_names (local (mkHeap self P m g'))
                        = col_names (local (mkHeap self P m g))
                     /\ same_objects (mkHeap self P m g) (mkHeap self P m g')) as Hsame.
  { intros g'. repeat split. destruct m; simpl; [split; [reflexivity|discriminate]|reflexivity]. }
  destruct (get_col (local (mkHeap self P m g)) c) as [s|];
    [|intros [= <- _]; apply Hsame].
  destruct (fill_cells _ _ p st (values s) g) as [g' [[vs|]|e]]; intros [= <- _];
    try apply Hsame.
  rewrite written_local. split; [destruct m; reflexivity|].
  split; [reflexivity|]. split; [|apply written_same_objects].
  unfold col_names, set_col_values. cbn [columns]. rewrite map_map.
  apply map_ext. intros x. destruct (String.eqb (name x) c); reflexivity.
Qed.

Lemma loop_facts (stats : dict ColumnStatistics) (h h' : Heap) (r : result unit) :
  for_each stats fill_column h = (h', r) ->
  imputer h' = imputer h
  /\ index (local h') = index (local h)
  /\ col_names (local h') = col_names (local h)
  /\ same_objects h h'.
Proof.
  revert h. induction stats as [|kv stats IH]; intros h; cbn [for_each].
  - intros [= <- _]. repeat split. apply same_objects_refl.
  - unfold bind. destruct (fill_column kv h) as [h1 [[]|e]] eqn:Hf.
    + destruct (fill_column_facts _ _ _ _ Hf) as [H1 [H2 [H3 H4]]].
      intros Hl. destruct (IH _ Hl) as [H1' [H2' [H3' H4']]].
      repeat split; try congruence. eapply same_objects_trans; eassumption.
    + intros [= <- _]. exact (fill_column_facts _ _ _ _ Hf).
Qed.

(** *** The imputer through transform *)

(** The imputer with another strategy assignment. *)
Definition same_but_strats (self self' : TimeSeriesImputer) : Prop :=
  strategy self' = strategy self
  /\ fill_value self' = fill_value self
  /\ index_column self' = index_column self
  /\ verbose self' = verbose self
  /\ _nc self' = _nc self
  /\ statistics_ self' = statistics_ self.

(** X5.  Whatever its outcome, [transform] leaves the request, the options,
    the dropped columns and the statistics of the imputer as they were.
    Of the strategy assignment it removes at most the name of one
    time-typed column of the frame, and nothing when the index of the
    frame is a DatetimeIndex. *)
Theorem transform_keeps_imputer
        (self : TimeSeriesImputer) (X : DataFrame) (g : RandomState) :
  same_but_strats self (imputer (fst (transform self X g)))
  /\ (_strats (imputer (fst (transform self X g))) = _strats self
      \/ (is_DatetimeIndex (index X) = false
          /\ exists strats c,
              _strats self = Some strats
              /\ In c (map name (select_datetime X))
              /\ _strats (imputer (fst (transform self X g)))
                 = Some (dict_pop strats c))).
Proof.
  assert (same_but_strats self self) as Hrefl by (repeat split).
  destruct (check_missingness X) eqn:Hc;
    [|unfold transform; rewrite Hc; split; [exact Hrefl | left; reflexivity]].
  destruct (statistics_ self) as [stats|] eqn:Hs;
    [|rewrite (transform_keeps_statistics self X g Hs);
      split; [exact Hrefl | left; reflexivity]].
  rewrite (transform_fitted self X g stats Hs Hc).
  pose proof (validator_cases self X g) as Hv.
  destruct (_transform_strategy_validator (mkHeap self X None g)) as [h1 [[]|e]].
  - assert (same_but_strats self (imputer h1)
            /\ (_strats (imputer h1) = _strats self
                \/ (is_DatetimeIndex (index X) = false
                    /\ exists strats c,
                        _strats self = Some strats
                        /\ In c (map name (select_datetime X))
                        /\ _strats (imputer h1) = Some (dict_pop strats c)))) as [Hb Hst].
    { inversion Hv as [| strats Hst Hall Hix Hh | strats c X' Hst Hall Hix Hin Hsi Hh];
        subst; cbn [imputer].
      - split; [exact Hrefl | left; reflexivity].
      - split; [repeat split|]. right. split; [exact Hix|].
        exists strats, c. auto. }
    destruct (statistics_ (imputer h1)) as [stats'|]; [|split; assumption].
    destruct (for_each stats' fill_column h1) as [h2 r] eqn:Hl.
    destruct (loop_facts _ _ _ _ Hl) as [Hi _].
    destruct r as [[]|e]; cbn [fst]; rewrite Hi; split; assumption.
  - inversion Hv; subst. split; [exact Hrefl | left; reflexivity].
Qed.

(** *** The caller's frame *)

(** X6.  When [transform] returns: over a DatetimeIndex the frame returned
    is the caller's frame itself, sorted and filled in place; when a
    column was promoted the frame returned is a new one and the caller's
    frame is as it was. *)
Theorem transform_in_place_or_new
        (self : TimeSeriesImputer) (X : DataFrame) (g : RandomState)
        (h : Heap) (Y : DataFrame) :
  transform self X g = (h, Ok Y) ->
  (is_DatetimeIndex (index X) = true -> made h = None /\ passed h = Y)
  /\ (is_DatetimeIndex (index X) = false -> made h = Some Y /\ passed h = X).
Proof.
  intros Ht.
  destruct (transform_ok_inv _ _ _ _ _ Ht) as [_ [stats [h1 [Hs [Hv [_ [Hl ->]]]]]]].
  pose proof (validator_cases self X g) as Hc. rewrite Hv in Hc.
  destruct (loop_facts _ _ _ _ Hl) as [_ [_ [_ [_ Hm]]]].
  inversion Hc as [| strats Hst Hall Hix Hh | strats c X' Hst Hall Hix Hin Hsi Hh]; subst;
    cbn [made passed] in Hm; rewrite Hix.
  - split; [|discriminate]. intros _. unfold local. rewrite Hm. auto.
  - split; [discriminate|]. intros _. destruct Hm as [Hp Hn].
    unfold local. destruct (made h) as [Z|]; [|contradiction]. auto.
Qed.

Lemma transform_in_place_or_new_witness :
  (is_DatetimeIndex (index Scenario.dated) = true ->
   made (mkHeap MeanScenario.fitted Scenario.dated (Some MeanScenario.filled) Scenario.g0)
   = None
   /\ passed (mkHeap MeanScenario.fitted Scenario.dated (Some MeanScenario.filled)
                     Scenario.g0) = MeanScenario.filled)
  /\ (is_DatetimeIndex (index Scenario.dated) = false ->
      made (mkHeap MeanScenario.fitted Scenario.dated (Some MeanScenario.filled) Scenario.g0)
      = Some MeanScenario.filled
      /\ passed (mkHeap MeanScenario.fitted Scenario.dated (Some MeanScenario.filled)
                        Scenario.g0) = Scenario.dated).
Proof.
  apply (transform_in_place_or_new MeanScenario.fitted Scenario.dated Scenario.g0).
  vm_compute. reflexivity.
Defined.

(** *** The choices of the validator *)

(** X7.  With exactly one time-typed column and an index that is not a
    DatetimeIndex, that column is promoted whatever [index_column]
    is: the option is not looked at. *)
Theorem single_time_column_promoted
        (self : TimeSeriesImputer) (X : DataFrame) (g : RandomState)
        (strats : dict string) (only : Series) :
  _strats self = Some strats ->
  (forall c, In c (keys strats) -> In c (col_names X)) ->
  is_DatetimeIndex (index X) = false ->
  select_datetime X = [only] ->
  promotes self X g strats (name only).
Proof.
  intros Hst Hall Hix Hts.
  assert (In (name only) (map name (select_datetime X))) as Hin
      by (rewrite Hts; left; reflexivity).
  destruct (select_datetime_get_col X (name only) Hin) as [s Hs].
  exists (mkFrame (DatetimeIndex (map stamp_of (values s)))
                  (filter (fun s' => negb (String.eqb (name s') (name only))) (columns X))).
  assert (set_index X (name only)
          = Some (mkFrame (DatetimeIndex (map stamp_of (values s)))
                          (filter (fun s' => negb (String.eqb (name s') (name only)))
                                  (columns X))))
    as Hsi by (unfold set_index; rewrite Hs; reflexivity).
  split; [exact Hsi|].
  rewrite validator_unfold, Hst, (proj2 (difference_nil _ _) Hall), Hix, Hts.
  unfold when. cbn [negb length Nat.eqb].
  unfold bind at 1. rewrite (promote_run self X _ g strats _ Hst Hsi). reflexivity.
Qed.

Module OneDate.

(** The frame of the scenario, fitted on [value], with an
    [index_column] that is no column of the frame. *)
Definition fitted : TimeSeriesImputer :=
  mkImputer (PerColumn [("value", "mean")]) None (Some "nowhere") false (Some [])
            (Some [("value", "mean")])
            (Some [("value", mkStat (PScalar (Scenario.num 3)) "mean")]).

End OneDate.

Lemma single_time_column_promoted_witness :
  promotes OneDate.fitted Scenario.dated Scenario.g0 [("value", "mean")] "date".
Proof.
  apply (single_time_column_promoted OneDate.fitted Scenario.dated Scenario.g0
           [("value", "mean")] (mkSeries "date" Datetime
              [Scenario.day 1; Scenario.day 2; Scenario.day 3; Scenario.day 4;
               Scenario.day 5])).
  - reflexivity.
  - simpl. intros c [<-|[]]. right. left. reflexivity.
  - reflexivity.
  - reflexivity.
Defined.

(** When the validator accepts a frame. *)
Definition acceptable (self : TimeSeriesImputer) (X : DataFrame) : Prop :=
  exists strats,
    _strats self = Some strats
    /\ (forall c, In c (keys strats) -> In c (col_names X))
    /\ (is_DatetimeIndex (index X) = true
        \/ length (select_datetime X) = 1
        \/ (2 <= length (select_datetime X)
            /\ match index_column self with
               | None => True
               | Some ic => In ic (map name (select_datetime X))
               end)).

(** X8.  The validator of [transform] ends well exactly when the fitted
    columns are all in the frame and the frame has a DatetimeIndex, or
    one time-typed column, or several of them with [index_column] unset
    or naming one of them. *)
Theorem validator_accepts_iff
        (self : TimeSeriesImputer) (X : DataFrame) (g : RandomState) :
  snd (_transform_strategy_validator (mkHeap self X None g)) = Ok tt
  <-> acceptable self X.
Proof.
  rewrite validator_unfold. unfold acceptable.
  destruct (_strats self) as [strats|] eqn:Hst.
  2:{ split; [discriminate | intros [s [H _]]; discriminate H]. }
  destruct (difference (keys strats) (col_names X)) as [|d ds] eqn:Hd.
  2:{ split; [discriminate|]. intros [s [[= <-] [Hall _]]].
      apply difference_nil in Hall. congruence. }
  pose proof (proj1 (difference_nil _ _) Hd) as Hall.
  assert (forall c, In c (map name (select_datetime X)) ->
                    snd (((pop_strat c ;;; reindex c) ;;;
                          X1 <- get_X ;; put_X (sort_index X1)) (mkHeap self X None g))
                    = Ok tt) as Hp.
  { intros c Hc. destruct (select_datetime_get_col X c Hc) as [s Hs].
    assert (set_index X c
            = Some (mkFrame (DatetimeIndex (map stamp_of (values s)))
                            (filter (fun s' => negb (String.eqb (name s') c)) (columns X))))
      as Hsi by (unfold set_index; rewrite Hs; reflexivity).
    unfold bind at 1. rewrite (promote_run self X _ g strats c Hst Hsi). reflexivity. }
  destruct (is_DatetimeIndex (index X)) eqn:Hix; unfold when; cbn [negb].
  - split; [|reflexivity]. intros _. exists strats. auto.
  - destruct (select_datetime X) as [|first rest] eqn:Hts.
    + split; [discriminate|].
      intros [s [_ [_ [H|[H|[H _]]]]]]; [discriminate H | discriminate H | simpl in H; lia].
    + assert (In (name first) (map name (first :: rest))) as Hfirst
          by (left; reflexivity).
      destruct rest as [|second rest]; cbn [length Nat.eqb].
      * split; [|intros _; apply Hp; exact Hfirst].
        intros _. exists strats. auto.
      * destruct (index_column self) as [ic|].
        -- destruct (mem ic (map name (first :: second :: rest))) eqn:Hm.
           ++ split; [|intros _; apply Hp; apply mem_In; exact Hm].
              intros _. exists strats. split; [reflexivity|]. split; [exact Hall|].
              right. right. split; [simpl; lia | apply mem_In; exact Hm].
           ++ split; [discriminate|].
              intros [s [_ [_ [H|[H|[_ H]]]]]];
                [discriminate H | discriminate H |].
              apply mem_In in H. congruence.
        -- split; [|intros _; apply Hp; exact Hfirst].
           intros _. exists strats. split; [reflexivity|]. split; [exact Hall|].
           right. right. split; [simpl; lia | exact I].
Qed.

(** *** How fit ends *)

Lemma check_fit_strat_errors (st : StrategyRequest) (nc ocols ncols : list string)
      (e : error) :
  _check_fit_strat st nc ocols ncols = Err e ->
  e = InvalidStrategyName \/ e = InvalidStrategyMapping.
Proof.
  unfold _check_fit_strat. destruct st as [s|m].
  - destruct (mem s (keys strategies)); [discriminate|]. intros [= <-]. auto.
  - destruct (forallb _ m); [discriminate|]. intros [= <-]. auto.
Qed.

(** The ways [fit] ends: rejected by the precondition; without time
    axis; with the error of the strategy check, the dropped columns
    already stored; or well, each attribute set. *)
Inductive fit_outcome (self : TimeSeriesImputer) (X : DataFrame)
  : TimeSeriesImputer * result unit -> Prop :=
| fit_rejected :
    check_missingness X = false ->
    fit_outcome self X (self, Err MissingnessRejected)
| fit_no_axis :
    check_missingness X = true ->
    is_DatetimeIndex (index X) = false ->
    select_datetime X = [] ->
    fit_outcome self X (self, Err MissingTemporalAxis)
| fit_bad_strategy e :
    check_missingness X = true ->
    (is_DatetimeIndex (index X) = true \/ select_datetime X <> []) ->
    _check_fit_strat (strategy self) (snd (_nan_col_dropper X)) (col_names X)
                     (col_names (fst (_nan_col_dropper X))) = Err e ->
    fit_outcome self X (with_nc self (snd (_nan_col_dropper X)), Err e)
| fit_done items stats :
    check_missingness X = true ->
    (is_DatetimeIndex (index X) = true \/ select_datetime X <> []) ->
    _check_fit_strat (strategy self) (snd (_nan_col_dropper X)) (col_names X)
                     (col_names (fst (_nan_col_dropper X))) = Ok items ->
    fit_columns X items [] = (stats, Ok tt) ->
    fit_outcome self X
                (mkImputer (strategy self) (fill_value self) (index_column self)
                           (verbose self) (Some (snd (_nan_col_dropper X)))
                           (Some items) (Some stats),
                 Ok tt).

Lemma fit_unfold (self : TimeSeriesImputer) (X : DataFrame) :
  fit self X
  = if check_missingness X
    then
      if negb (is_DatetimeIndex (index X)) && Nat.eqb (length (select_datetime X)) 0
      then (self, Err MissingTemporalAxis)
      else
        match _check_fit_strat (strategy self) (snd (_nan_col_dropper X)) (col_names X)
                               (col_names (fst (_nan_col_dropper X))) with
        | Err e => (with_nc self (snd (_nan_col_dropper X)), Err e)
        | Ok items =>
            (mkImputer (strategy self) (fill_value self) (index_column self)
                       (verbose self) (Some (snd (_nan_col_dropper X)))
                       (Some items) (Some (fst (fit_columns X items []))),
             snd (fit_columns X items []))
        end
    else (self, Err MissingnessRejected).
Proof.
  unfold fit, fit_body, _fit_strategy_validator.
  destruct (check_missingness X); [|reflexivity].
  destruct (negb (is_DatetimeIndex (index X)) && Nat.eqb (length (select_datetime X)) 0);
    [reflexivity|].
  unfold _nan_col_dropper. cbn [fst snd strategy with_nc].
  destruct (_check_fit_strat _ _ _ _) as [items|e]; [|reflexivity].
  cbn [_strats with_statistics with_strats].
  destruct (fit_columns X items []) as [stats r]. reflexivity.
Qed.

Lemma fit_cases (self : TimeSeriesImputer) (X : DataFrame) :
  fit_outcome self X (fit self X).
Proof.
  rewrite fit_unfold.
  destruct (check_missingness X) eqn:Hc; [|apply fit_rejected; exact Hc].
  assert (negb (is_DatetimeIndex (index X)) && Nat.eqb (length (select_datetime X)) 0
          = false ->
          is_DatetimeIndex (index X) = true \/ select_datetime X <> []) as Hax.
  { destruct (is_DatetimeIndex (index X)); [auto|].
    destruct (select_datetime X); [discriminate|]. intros _. right. discriminate. }
  destruct (negb (is_DatetimeIndex (index X)) && Nat.eqb (length (select_datetime X)) 0)
    eqn:Hno.
  - apply andb_true_iff in Hno. destruct Hno as [H1 H2].
    apply fit_no_axis; [exact Hc | |].
    + destruct (is_DatetimeIndex (index X)); [discriminate H1 | reflexivity].
    + apply Nat.eqb_eq in H2. apply length_zero_iff_nil. exact H2.
  - specialize (Hax eq_refl).
    destruct (_check_fit_strat (strategy self) (snd (_nan_col_dropper X)) (col_names X)
                               (col_names (fst (_nan_col_dropper X))))
      as [items|e] eqn:Hs.
    + assert (snd (fit_columns X items []) = Ok tt) as Hr.
      { apply fit_columns_ok. intros c n Hin.
        destruct (check_fit_strat_items _ _ _ _ _ Hs c n Hin) as [H1 H2].
        split; [|exact H2]. apply dropper_names_incl. exact H1. }
      rewrite Hr. apply fit_done; try assumption.
      rewrite <- Hr. apply surjective_pairing.
    + apply fit_bad_strategy; assumption.
Qed.

(** X1.  [fit] fails for want of a time axis exactly on the frames, past the
    precondition, whose index is not a DatetimeIndex and which have no
    time-typed column; the imputer is then as it was, the dropped
    columns included. *)
Theorem fit_without_time_axis (self : TimeSeriesImputer) (X : DataFrame) :
  (snd (fit self X) = Err MissingTemporalAxis
   <-> check_missingness X = true
       /\ is_DatetimeIndex (index X) = false
       /\ select_datetime X = [])
  /\ (snd (fit self X) = Err MissingTemporalAxis -> fst (fit self X) = self).
Proof.
  pose proof (fit_cases self X) as H.
  destruct (fit self X) as [self' r].
  inversion H as [Hc | Hc Hix Hts | e Hc Hax Hs | items stats Hc Hax Hs Hf]; subst;
    cbn [fst snd].
  - split; [|reflexivity]. split; [discriminate|]. intros [H1 _]. congruence.
  - split; [|reflexivity]. split; auto.
  - split; [|intros E; injection E as ->;
              destruct (check_fit_strat_errors _ _ _ _ _ Hs); discriminate].
    split.
    + intros E. injection E as ->.
      destruct (check_fit_strat_errors _ _ _ _ _ Hs); discriminate.
    + intros [_ [Hix Hts]]. destruct Hax; congruence.
  - split; [|discriminate]. split; [discriminate|].
    intros [_ [Hix Hts]]. destruct Hax; congruence.
Qed.

(** X2.  [fit] raises nothing in its loop: a failed [fit] was rejected by
    the precondition, found no time axis, or failed the check of the
    strategies against the columns. *)
Theorem fit_fails_in_validation
        (self self' : TimeSeriesImputer) (X : DataFrame) (e : error) :
  fit self X = (self', Err e) ->
  In e [MissingnessRejected; MissingTemporalAxis; InvalidStrategyName;
        InvalidStrategyMapping]
  /\ statistics_ self' = statistics_ self.
Proof.
  intros Hf. pose proof (fit_cases self X) as H. rewrite Hf in H.
  inversion H as [Hc | Hc Hix Hts | e' Hc Hax Hs | ]; subst; simpl; auto 8.
  destruct (check_fit_strat_errors _ _ _ _ _ Hs) as [E|E]; rewrite E; auto 8.
Qed.

Lemma fit_fails_in_validation_witness :
  In InvalidStrategyMapping
     [MissingnessRejected; MissingTemporalAxis; InvalidStrategyName;
      InvalidStrategyMapping]
  /\ statistics_ (fst (fit FailedCalls.mapped FailedCalls.other))
     = statistics_ FailedCalls.mapped.
Proof.
  apply (fit_fails_in_validation FailedCalls.mapped _ FailedCalls.other).
  vm_compute. reflexivity.
Defined.

(** The imputer as [__init__] leaves it, for the arguments of [self]. *)
Definition unfit (self : TimeSeriesImputer) : TimeSeriesImputer :=
  mkImputer (strategy self) (fill_value self) (index_column self) (verbose self)
            None None None.

(** X3.  [fit] starts afresh: whether it succeeds, and the imputer it leaves
    when it does, depend on the arguments the imputer was made with and
    on the frame, not on what an earlier [fit] or [transform] left. *)
Theorem fit_forgets_earlier_fit (self : TimeSeriesImputer) (X : DataFrame) :
  snd (fit self X) = snd (fit (unfit self) X)
  /\ (snd (fit self X) = Ok tt -> fst (fit self X) = fst (fit (unfit self) X)).
Proof.
  pose proof (fit_cases self X) as H1. pose proof (fit_cases (unfit self) X) as H2.
  destruct (fit self X) as [a r]. destruct (fit (unfit self) X) as [b r'].
  cbn [fst snd].
  inversion H1 as [Hc | Hc Hix Hts | e Hc Hax Hs | items stats Hc Hax Hs Hf]; subst;
    inversion H2 as [Hc' | Hc' Hix' Hts' | e' Hc' Hax' Hs' | items' stats' Hc' Hax' Hs' Hf'];
    subst; cbn [unfit strategy fill_value index_column verbose] in *;
    try congruence;
    try (split; [reflexivity | discriminate]);
    try (exfalso; destruct Hax; congruence);
    try (exfalso; destruct Hax'; congruence).
  - split; [congruence | discriminate].
  - assert (items' = items) as -> by congruence.
    assert (stats' = stats) as -> by congruence.
    split; reflexivity.
Qed.

(** *** The statistics follow the strategy assignment *)

(** The entry of the statistics for an entry of the strategy
    assignment: same column, and the param and the name that the
    function registered under the assigned name returns for the column. *)
Definition entry_of (X : DataFrame) (cn : string * string)
           (cs : string * ColumnStatistics) : Prop :=
  fst cs = fst cn
  /\ exists f s,
      dict_get strategies (snd cn) = Some f
      /\ get_col X (fst cn) = Some s
      /\ f s = (param (snd cs), strat (snd cs)).

Lemma fit_columns_entries (X : DataFrame) (items : dict string)
      (stats0 stats : dict ColumnStatistics) :
  NoDup (keys items) ->
  (forall k, In k (keys items) -> ~ In k (keys stats0)) ->
  fit_columns X items stats0 = (stats, Ok tt) ->
  exists new, stats = stats0 ++ new /\ Forall2 (entry_of X) items new.
Proof.
  revert stats0. induction items as [|[c n] items IH]; intros stats0 Hnd Hfresh;
    cbn [fit_columns].
  - intros [= <-]. exists []. rewrite app_nil_r. split; [reflexivity | constructor].
  - destruct (dict_get strategies n) as [f|] eqn:Hf; [|discriminate].
    destruct (get_col X c) as [s|] eqn:Hs; [|discriminate].
    destruct (f s) as [p st] eqn:Hfs.
    inversion Hnd as [|? ? Hc Hnd']; subst.
    rewrite dict_set_new by (apply Hfresh; left; reflexivity).
    intros H. apply IH in H; [|exact Hnd'|].
    + destruct H as [new [-> Hall]].
      exists ((c, mkStat p st) :: new). rewrite <- app_assoc. split; [reflexivity|].
      constructor; [|exact Hall]. split; [reflexivity|]. exists f, s. auto.
    + intros k Hk Hin. unfold keys in Hin. rewrite map_app in Hin.
      apply in_app_or in Hin. destruct Hin as [Hin|[<-|[]]].
      * apply (Hfresh k); [right; exact Hk | exact Hin].
      * apply Hc. exact Hk.
Qed.

Lemma filtered_names_distinct (keep : Series -> bool) (cols : list Series) :
  NoDup (map name cols) -> NoDup (map name (filter keep cols)).
Proof.
  induction cols as [|s cols IH]; intros Hnd; simpl; [constructor|].
  inversion Hnd as [|? ? Hs Hcols]; subst.
  destruct (keep s); simpl; [|exact (IH Hcols)].
  constructor; [|exact (IH Hcols)].
  intros Hin. apply Hs. apply in_map_iff in Hin. destruct Hin as [s' [Hn Hin]].
  apply filter_In in Hin. apply in_map_iff. exists s'. tauto.
Qed.

(** X4.  After a [fit] that succeeded on a frame of distinct column names,
    the statistics have one entry for each entry of the strategy
    assignment, in the same order, made by the registered function of
    the assigned name from the column of the fitted frame. *)
Theorem fit_statistics_follow_strats
        (self self' : TimeSeriesImputer) (X : DataFrame) :
  NoDup (col_names X) ->
  fit self X = (self', Ok tt) ->
  exists strats stats,
    _strats self' = Some strats
    /\ statistics_ self' = Some stats
    /\ Forall2 (entry_of X) strats stats.
Proof.
  intros Hnd Hf. pose proof (fit_cases self X) as H. rewrite Hf in H.
  inversion H as [| | | items stats Hc Hax Hs Hcols]; subst.
  exists items, stats. cbn [_strats statistics_]. split; [reflexivity|].
  split; [reflexivity|].
  destruct (fit_columns_entries X items [] stats) as [new [-> Hall]];
    [| intros k _ [] | exact Hcols | exact Hall].
  rewrite (check_fit_strat_keys _ _ _ _ _ Hs).
  unfold _nan_col_dropper, col_names. cbn [fst columns].
  apply filtered_names_distinct. exact Hnd.
Qed.

Lemma fit_statistics_follow_strats_witness :
  exists strats stats,
    _strats LinearScenario.fitted = Some strats
    /\ statistics_ LinearScenario.fitted = Some stats
    /\ Forall2 (entry_of Scenario.dated) strats stats.
Proof.
  apply (fit_statistics_follow_strats (Scenario.imputer_of "linear")).
  - simpl. repeat constructor; simpl; intuition discriminate.
  - vm_compute. reflexivity.
Defined.

(** *** Each column through its own round *)

(** With one entry a column in the statistics, the column [c] of the
    frame the loop leaves is the column it found, changed by the round
    of [c] alone. *)
Lemma loop_entry (stats : dict ColumnStatistics) (h h' : Heap) (c : string)
      (stat : ColumnStatistics) :
  NoDup (keys stats) ->
  In (c, stat) stats ->
  for_each stats fill_column h = (h', Ok tt) ->
  exists s g1 g2 res,
    get_col (local h) c = Some s
    /\ fill_cells (fill_value (imputer h)) (index_keys (index (local h)))
                  (param stat) (strat stat) (values s) g1 = (g2, Ok res)
    /\ get_col (local h') c
       = Some (match res with
               | Some vs => mkSeries (name s) (dty s) vs
               | None => s
               end).
Proof.
  revert h. induction stats as [|[k st] stats IH]; intros h Hnd Hin; [contradiction|].
  inversion Hnd as [|? ? Hk Hnd']; subst.
  cbn [for_each]. unfold bind.
  destruct (fill_column (k, st) h) as [h1 [[]|e]] eqn:Hf; [|discriminate].
  intros Hl. destruct Hin as [[= -> ->]|Hin].
  - rewrite (loop_untouched stats h1 h' (Ok tt) c Hk Hl).
    destruct h as [self P m g]. destruct stat as [p sn].
    rewrite fill_column_eq in Hf. cbn [imputer param strat].
    destruct (get_col (local (mkHeap self P m g)) c) as [s|] eqn:Hg; [|discriminate Hf].
    destruct (fill_cells (fill_value self) (index_keys (index (local (mkHeap self P m g))))
                         p sn (values s) g) as [g' [[vs|]|e]] eqn:Hfc;
      [| |discriminate Hf]; injection Hf as <-.
    + exists s, g, g', (Some vs). rewrite written_local.
      split; [reflexivity|]. split; [exact Hfc|]. apply get_col_set_same. exact Hg.
    + exists s, g, g', None.
      split; [reflexivity|]. split; [exact Hfc|]. destruct m; exact Hg.
  - assert (c <> k) as Hne
        by (intros ->; apply Hk; apply (in_map fst) in Hin; exact Hin).
    destruct (fill_column_facts _ _ _ _ Hf) as [Hi [Hx _]].
    destruct (IH h1 Hnd' Hin Hl) as [s [g1 [g2 [res [Hg [Hfc Hg']]]]]].
    exists s, g1, g2, res.
    rewrite <- (fill_column_untouched h h1 k st (Ok tt) c Hne Hf), <- Hi, <- Hx. auto.
Qed.

(** The frame the loop of [transform] starts from, for the caller's
    frame [X]: [X] sorted, or [X] with a time-typed column set as its
    index, sorted. *)
Definition loop_frame (X X0 : DataFrame) : Prop :=
  (is_DatetimeIndex (index X) = true /\ X0 = sort_index X)
  \/ (is_DatetimeIndex (index X) = false
      /\ exists c X', In c (map name (select_datetime X))
                      /\ set_index X c = Some X' /\ X0 = sort_index X').

Lemma transform_ok_loop (self : TimeSeriesImputer) (X : DataFrame) (g : RandomState)
      (h : Heap) (Y : DataFrame) :
  transform self X g = (h, Ok Y) ->
  exists stats h1,
    statistics_ self = Some stats
    /\ loop_frame X (local h1)
    /\ fill_value (imputer h1) = fill_value self
    /\ for_each stats fill_column h1 = (h, Ok tt)
    /\ Y = local h.
Proof.
  intros Ht.
  destruct (transform_ok_inv _ _ _ _ _ Ht) as [_ [stats [h1 [Hs [Hv [_ [Hl ->]]]]]]].
  pose proof (validator_cases self X g) as Hc. rewrite Hv in Hc.
  exists stats, h1. split; [exact Hs|].
  split; [|split; [|split; [exact Hl | reflexivity]]].
  - inversion Hc as [| strats Hst Hall Hix Hh | strats c X' Hst Hall Hix Hin Hsi Hh]; subst;
      cbn [local made passed].
    + left. auto.
    + right. split; [exact Hix|]. exists c, X'. auto.
  - inversion Hc; subst; reflexivity.
Qed.


(** X10.  When [transform] returns, a column whose statistics are the
    strategy "mean" or "median" and a scalar [v] is the column of the
    sorted frame with [v] in each missing cell, every other cell as it
    was. *)
Theorem transform_fills_with_scalar
        (self : TimeSeriesImputer) (X : DataFrame) (g : RandomState)
        (h : Heap) (Y : DataFrame) (stats : dict ColumnStatistics)
        (c st : string) (v : value) :
  statistics_ self = Some stats ->
  NoDup (keys stats) ->
  In (c, mkStat (PScalar (Some v)) st) stats ->
  st = "mean" \/ st = "median" ->
  transform self X g = (h, Ok Y) ->
  exists X0 s,
    loop_frame X X0
    /\ get_col X0 c = Some s
    /\ get_col Y c = Some (mkSeries (name s) (dty s) (fillna v (values s))).
Proof.
  intros Hs Hnd Hin Hst Ht.
  destruct (transform_ok_loop _ _ _ _ _ Ht) as [stats' [h1 [Hs' [Hlf [_ [Hl ->]]]]]].
  assert (stats' = stats) as -> by congruence.
  destruct (loop_entry stats h1 h c _ Hnd Hin Hl) as [s [g1 [g2 [res [Hg [Hfc Hg']]]]]].
  cbn [param strat] in Hfc.
  rewrite fill_cells_scalar in Hfc by (destruct Hst as [->| ->]; reflexivity).
  injection Hfc as _ <-.
  exists (local h1), s. auto.
Qed.

Lemma mean_statistics :
  statistics_ MeanScenario.fitted
  = Some [("value", mkStat (PScalar (Some (VNum (inject_Z 3)))) "mean")].
Proof. vm_compute. reflexivity. Qed.


Lemma transform_fills_with_scalar_witness :
  exists X0 s,
    loop_frame Scenario.dated X0
    /\ get_col X0 "value" = Some s
    /\ get_col MeanScenario.filled "value"
       = Some (mkSeries (name s) (dty s) (fillna (VNum (inject_Z 3)) (values s))).
Proof.
  apply (transform_fills_with_scalar MeanScenario.fitted Scenario.dated Scenario.g0
           (mkHeap MeanScenario.fitted Scenario.dated (Some MeanScenario.filled)
                   Scenario.g0)
           MeanScenario.filled
           [("value", mkStat (PScalar (Some (VNum (inject_Z 3)))) "mean")]
           "value" "mean").
  - exact mean_statistics.
  - simpl. repeat constructor. simpl. tauto.
  - simpl. left. reflexivity.
  - left. reflexivity.
  - vm_compute. reflexivity.
Defined.

(** *** The generator *)

Lemma fill_cells_no_draw (fv : option string) (ks : list (option Z)) (p : Param)
      (st : string) (cs : list cell) (g : RandomState) :
  st <> "random" -> st <> "norm" ->
  fst (fill_cells fv ks p st cs g) = g.
Proof.
  intros H1 H2. unfold fill_cells.
  destruct (is_in st ["mean"; "median"]); [destruct p as [|[v|]| | |]; reflexivity|].
  destruct (String.eqb st "mode"); [reflexivity|].
  destruct (String.eqb st "random") eqn:E1; [apply String.eqb_eq in E1; contradiction|].
  destruct (is_in st ["linear"; "time"]); [reflexivity|].
  destruct (String.eqb st "norm") eqn:E2; [apply String.eqb_eq in E2; contradiction|].
  reflexivity.
Qed.

Lemma loop_no_draw (stats : dict ColumnStatistics) (h h' : Heap) (r : result unit) :
  (forall c stat, In (c, stat) stats -> strat stat <> "random" /\ strat stat <> "norm") ->
  for_each stats fill_column h = (h', r) ->
  random h' = random h.
Proof.
  revert h. induction stats as [|[c [p st]] stats IH]; intros h Hall; cbn [for_each].
  - intros [= <- _]. reflexivity.
  - assert (forall h1 r1, fill_column (c, mkStat p st) h = (h1, r1) ->
                          random h1 = random h) as Hstep.
    { destruct h as [self P m g]. intros h1 r1. rewrite fill_column_eq.
      destruct (get_col (local (mkHeap self P m g)) c) as [s|];
        [|intros [= <- _]; reflexivity].
      destruct (Hall c (mkStat p st) (or_introl eq_refl)) as [H1 H2]. cbn [strat] in *.
      pose proof (fill_cells_no_draw (fill_value self)
                    (index_keys (index (local (mkHeap self P m g)))) p st (values s) g
                    H1 H2) as Hg.
      destruct (fill_cells _ _ p st (values s) g) as [g' [[vs|]|e]]; cbn [fst] in Hg;
        subst g'; intros [= <- _]; try reflexivity.
      destruct m; reflexivity. }
    unfold bind. destruct (fill_column (c, mkStat p st) h) as [h1 [[]|e]] eqn:Hf.
    + intros Hl. rewrite (IH h1); [apply (Hstep _ _ eq_refl) | | exact Hl].
      intros c' stat Hin. apply (Hall c'). right. exact Hin.
    + intros [= <- _]. apply (Hstep _ _ eq_refl).
Qed.

(** X11.  When no column has the strategy "random" or "norm" in the
    statistics, [transform] takes nothing from the generator, whatever
    its outcome. *)
Theorem transform_without_draws
        (self : TimeSeriesImputer) (X : DataFrame) (g : RandomState) :
  (forall stats c stat,
      statistics_ self = Some stats -> In (c, stat) stats ->
      strat stat <> "random" /\ strat stat <> "norm") ->
  random (fst (transform self X g)) = g.
Proof.
  intros Hall.
  destruct (check_missingness X) eqn:Hc; [|unfold transform; rewrite Hc; reflexivity].
  destruct (statistics_ self) as [stats|] eqn:Hs;
    [|rewrite (transform_keeps_statistics self X g Hs); reflexivity].
  rewrite (transform_fitted self X g stats Hs Hc).
  pose proof (validator_cases self X g) as Hv.
  destruct (_transform_strategy_validator (mkHeap self X None g)) as [h1 [[]|e]].
  - assert (random h1 = g /\ statistics_ (imputer h1) = Some stats) as [Hg Hs1]
        by (inversion Hv; subst; cbn [random imputer with_strats statistics_]; auto).
    rewrite Hs1.
    destruct (for_each stats fill_column h1) as [h2 r] eqn:Hl.
    rewrite <- Hg, <- (loop_no_draw stats h1 h2 r (fun c stat => Hall stats c stat eq_refl) Hl).
    destruct r as [[]|e]; reflexivity.
  - inversion Hv; subst. reflexivity.
Qed.

Lemma transform_without_draws_witness :
  random (fst (transform MeanScenario.fitted Scenario.dated Scenario.g0)) = Scenario.g0.
Proof.
  apply transform_without_draws.
  intros stats c stat Hs Hin. rewrite mean_statistics in Hs. injection Hs as <-.
  destruct Hin as [[= <- <-]|[]]. split; discriminate.
Defined.

(** *** A frame without missing value *)

Lemma keeps_complete_eq (cs vs : list cell) : keeps cs vs -> complete cs -> vs = cs.
Proof.
  induction 1 as [|x y a b Hxy _ IH]; intros Hc; [reflexivity|].
  inversion Hc; subst. rewrite IH by assumption.
  destruct Hxy as [E|E]; [contradiction | rewrite E; reflexivity].
Qed.

Lemma complete_no_missing (cs : list cell) : complete cs -> missing_positions 0 cs = [].
Proof.
  generalize 0. induction cs as [|c cs IH]; intros i Hc; simpl; [reflexivity|].
  inversion Hc; subst. destruct c; [|contradiction]. simpl. apply IH. assumption.
Qed.

Lemma choice_none (a : list value) (g : RandomState) : snd (choice a 0 g) = Ok [].
Proof. destruct a; reflexivity. Qed.

(** A round leaves a column without missing value as it is. *)
Lemma fill_cells_complete (fv : option string) (ks : list (option Z)) (p : Param)
      (st : string) (cs : list cell) (g g' : RandomState) (vs : list cell) :
  complete cs ->
  fill_cells fv ks p st cs g = (g', Ok (Some vs)) -> vs = cs.
Proof.
  intros Hc. unfold fill_cells, null_labels.
  rewrite (complete_no_missing cs Hc). cbn [map length].
  destruct (is_in st ["mean"; "median"]).
  { destruct p as [|[v|]|a|a|mu sd]; try discriminate; intros [= _ <-];
      [apply keeps_complete_eq; [apply fillna_keeps | exact Hc] | reflexivity]. }
  destruct (String.eqb st "mode").
  { destruct (_mode_output cs p fv) as [vs'|] eqn:E; [|discriminate].
    intros [= _ <-]. apply keeps_complete_eq; [|exact Hc].
    exact (mode_output_keeps _ _ _ _ E). }
  destruct (String.eqb st "random").
  { destruct p as [|v|a|a|mu sd]; try discriminate;
      (pose proof (choice_none a g) as Hn;
       destruct (choice a 0 g) as [g1 [fills|e]]; cbn [snd] in Hn; [|discriminate];
       injection Hn as ->; cbn; intros [= _ <-]; reflexivity). }
  destruct (is_in st ["linear"; "time"]).
  { destruct (_interp ks cs st) as [vs'|] eqn:E; [|discriminate].
    intros [= _ <-]. apply keeps_complete_eq; [|exact Hc].
    exact (interp_keeps _ _ _ _ E). }
  destruct (String.eqb st "norm"); [|discriminate].
  destruct p as [|v|a|a|mu sd]; try discriminate.
  cbn. intros [= _ <-]. reflexivity.
Qed.

Lemma set_col_same (X : DataFrame) (c : string) (s : Series) :
  NoDup (col_names X) -> get_col X c = Some s -> set_col_values X c (values s) = X.
Proof.
  intros Hnd Hg. destruct (get_col_some _ _ _ Hg) as [Hin Hn].
  destruct X as [ix cols]. unfold set_col_values. cbn [index columns] in *. f_equal.
  rewrite <- (map_id cols) at 2. apply map_ext_in. intros x Hx.
  destruct (String.eqb (name x) c) eqn:E; [|reflexivity].
  apply String.eqb_eq in E.
  assert (x = s) as -> by (apply (NoDup_names_unique cols); auto; congruence).
  destruct s; reflexivity.
Qed.

Lemma loop_complete_frame (stats : dict ColumnStatistics) (h h' : Heap) :
  NoDup (col_names (local h)) ->
  Forall (fun s => complete (values s)) (columns (local h)) ->
  for_each stats fill_column h = (h', Ok tt) ->
  local h' = local h.
Proof.
  revert h. induction stats as [|[c [p st]] stats IH]; intros h Hnd Hall; cbn [for_each].
  - intros [= <-]. reflexivity.
  - unfold bind.
    destruct (fill_column (c, mkStat p st) h) as [h1 [[]|e]] eqn:Hf; [|discriminate].
    assert (local h1 = local h) as Hsame.
    { destruct h as [self P m g]. rewrite fill_column_eq in Hf.
      destruct (get_col (local (mkHeap self P m g)) c) as [s|] eqn:Hg; [|discriminate Hf].
      destruct (fill_cells _ _ p st (values s) g) as [g' [[vs|]|e]] eqn:Hfc;
        [| |discriminate Hf]; injection Hf as <-.
      - rewrite written_local.
        rewrite (fill_cells_complete _ _ _ _ _ _ _ _ (proj1 (Forall_forall _ _) Hall s
                   (proj1 (get_col_some _ _ _ Hg))) Hfc).
        apply set_col_same; assumption.
      - destruct m; reflexivity. }
    intros Hl. rewrite <- Hsame. apply IH; [| |exact Hl]; rewrite Hsame; assumption.
Qed.

Lemma take_complete (perm : list nat) (cs : list cell) :
  complete cs -> (forall i, In i perm -> i < length cs) ->
  complete (take None perm cs).
Proof.
  intros Hc Hb. apply Forall_forall. intros x Hx. unfold take in Hx.
  apply in_map_iff in Hx. destruct Hx as [i [<- Hi]].
  unfold complete in Hc. rewrite Forall_forall in Hc.
  apply Hc. apply nth_In. apply Hb. exact Hi.
Qed.

Lemma sort_index_complete (X : DataFrame) :
  shaped X ->
  Forall (fun s => complete (values s)) (columns X) ->
  Forall (fun s => complete (values s)) (columns (sort_index X)).
Proof.
  intros [_ Hlen] Hall. unfold sort_index. cbn [columns].
  apply Forall_forall. intros s Hs. apply in_map_iff in Hs.
  destruct Hs as [s0 [<- Hin]]. cbn [values].
  rewrite Forall_forall in Hall, Hlen.
  apply take_complete; [apply Hall; exact Hin|].
  intros i Hi. apply (Permutation_in _ (argsort_perm _)) in Hi.
  apply in_seq in Hi. rewrite (Hlen s0 Hin). lia.
Qed.

(** X12.  On a frame without missing value (distinct column names, columns
    as long as the index), a [transform] that returns has changed no
    value: the frame returned is the frame sorted, a time-typed column
    set as its index when it had no DatetimeIndex. *)
Theorem transform_of_complete_frame
        (self : TimeSeriesImputer) (X : DataFrame) (g : RandomState)
        (h : Heap) (Y : DataFrame) :
  shaped X ->
  Forall (fun s => complete (values s)) (columns X) ->
  transform self X g = (h, Ok Y) ->
  loop_frame X Y.
Proof.
  intros Hsh Hall Ht.
  destruct (transform_ok_loop _ _ _ _ _ Ht) as [stats [h1 [_ [Hlf [_ [Hl ->]]]]]].
  rewrite (loop_complete_frame stats h1 h); [exact Hlf | | | exact Hl].
  - destruct Hlf as [[_ ->]|[_ [c [X' [_ [Hsi ->]]]]]].
    + exact (proj1 (sort_index_shaped X Hsh)).
    + exact (proj1 (sort_index_shaped X' (proj1 (set_index_shaped X X' c Hsh Hsi)))).
  - destruct Hlf as [[_ ->]|[_ [c [X' [_ [Hsi ->]]]]]].
    + apply sort_index_complete; assumption.
    + apply sort_index_complete; [exact (proj1 (set_index_shaped X X' c Hsh Hsi))|].
      unfold set_index in Hsi. destruct (get_col X c); [|discriminate].
      injection Hsi as <-. cbn [columns].
      apply Forall_forall. intros s0 Hs0. apply filter_In in Hs0.
      rewrite Forall_forall in Hall. apply Hall. tauto.
Qed.

Module CompleteScenario.

(** Observed values only, the days out of order. *)
Definition frame : DataFrame :=
  mkFrame (DatetimeIndex [Some 3; Some 1; Some 2]%Z)
          [ mkSeries "value" Numeric [Scenario.num 5; Scenario.num 1; Scenario.num 3] ].

Definition sorted : DataFrame :=
  mkFrame (DatetimeIndex [Some 1; Some 2; Some 3]%Z)
          [ mkSeries "value" Numeric [Scenario.num 1; Scenario.num 3; Scenario.num 5] ].

End CompleteScenario.

Lemma transform_of_complete_frame_witness :
  loop_frame CompleteScenario.frame CompleteScenario.sorted.
Proof.
  apply (transform_of_complete_frame MeanScenario.fitted CompleteScenario.frame
           Scenario.g0
           (mkHeap MeanScenario.fitted CompleteScenario.sorted None Scenario.g0)).
  - split.
    + simpl. repeat constructor. simpl. tauto.
    + repeat constructor.
  - repeat constructor; discriminate.
  - vm_compute. reflexivity.
Defined.
